(** * Task manager: a shallow embedding of [task_manager.py]

    The development follows the Python module top down: the [Priority]
    enumeration, calendar dates and timestamps (the parts of [datetime]
    the program uses), the [Task] and [TeamMember] records, the SQLite
    tables behind [save_data] / [load_data], and the [TaskManager]
    operations.  Python objects that are shared by reference ([Task]
    objects sit both in [TaskManager.tasks] and in the [tasks] list of a
    member) live in an object store and are named by references.

    Definitions come first, the statements about them afterwards. *)

From Stdlib Require Import ZArith Lia Ascii String.
From Stdlib Require Import Sorting.Sorted Sorting.Permutation.
From stdpp Require Import base option list strings.

Local Open Scope Z_scope.

(* ================================================================== *)
(** * Part I: the program *)
(* ================================================================== *)

(** ** [class Priority(Enum)] *)

Inductive Priority : Type := LOW | MEDIUM | HIGH.

Module Priority.
(** [Priority.X.value] *)
Definition value (p : Priority) : Z :=
  match p with LOW => 1 | MEDIUM => 2 | HIGH => 3 end.

(** [Priority.X.name] *)
Definition name (p : Priority) : string :=
  match p with LOW => "LOW" | MEDIUM => "MEDIUM" | HIGH => "HIGH" end.

(** [Priority[s]]: lookup by symbolic name, [None] is Python's [KeyError]. *)
Definition of_name (s : string) : option Priority :=
  if String.eqb s "LOW" then Some LOW
  else if String.eqb s "MEDIUM" then Some MEDIUM
  else if String.eqb s "HIGH" then Some HIGH
  else None.

Definition eqb (p q : Priority) : bool :=
  match p, q with
  | LOW, LOW | MEDIUM, MEDIUM | HIGH, HIGH => true
  | _, _ => false
  end.
End Priority.

(** ** [datetime.date]: the proleptic Gregorian calendar

    A [date] object holds a year, a month and a day; the constructor
    only builds objects with [MINYEAR <= year <= MAXYEAR], a month in
    [1..12] and a day that exists in that month ([valid]).  Dates compare
    as the triples (year, month, day); [date + timedelta] goes through the
    day number ([toordinal]) and raises [OverflowError] outside
    [1 .. MAXORDINAL]. *)

Module Date.
Record t : Type := mk { year : Z; month : Z; day : Z }.

Definition MINYEAR : Z := 1.
Definition MAXYEAR : Z := 9999.

Definition is_leap (y : Z) : bool :=
  (y mod 4 =? 0) && (negb (y mod 100 =? 0) || (y mod 400 =? 0)).

Definition days_in_month (y m : Z) : Z :=
  match m with
  | 1 => 31 | 2 => if is_leap y then 29 else 28 | 3 => 31 | 4 => 30
  | 5 => 31 | 6 => 30 | 7 => 31 | 8 => 31 | 9 => 30 | 10 => 31
  | 11 => 30 | 12 => 31
  | _ => 0
  end.

(** Days in the year before the first day of month [m]. *)
Definition days_before_month (y m : Z) : Z :=
  match m with
  | 1 => 0 | 2 => 31 | 3 => 59 | 4 => 90 | 5 => 120 | 6 => 151
  | 7 => 181 | 8 => 212 | 9 => 243 | 10 => 273 | 11 => 304 | 12 => 334
  | _ => 0
  end + (if (2 <? m) && is_leap y then 1 else 0).

(** Days before January 1st of year [y]. *)
Definition days_before_year (y : Z) : Z :=
  let p := y - 1 in p * 365 + p / 4 - p / 100 + p / 400.

Definition ymd2ord (y m d : Z) : Z :=
  days_before_year y + days_before_month y m + d.

(** [d.toordinal()]: 0001-01-01 is day 1. *)
Definition toordinal (d : t) : Z := ymd2ord (year d) (month d) (day d).

Definition MAXORDINAL : Z := 3652059.

(** What the [date] constructor checks. *)
Definition validb (d : t) : bool :=
  (MINYEAR <=? year d) && (year d <=? MAXYEAR)
  && (1 <=? month d) && (month d <=? 12)
  && (1 <=? day d) && (day d <=? days_in_month (year d) (month d)).

Definition valid (d : t) : Prop := validb d = true.

(** Month and day exist in the year, whatever the year. *)
Definition in_year (d : t) : Prop :=
  1 <= month d <= 12 /\ 1 <= day d <= days_in_month (year d) (month d).

(** Comparison of dates: the triples (year, month, day), left to right. *)
Definition ltb (a b : t) : bool :=
  (year a <? year b)
  || ((year a =? year b)
      && ((month a <? month b)
          || ((month a =? month b) && (day a <? day b)))).

Definition eqb (a b : t) : bool :=
  (year a =? year b) && (month a =? month b) && (day a =? day b).

Definition leb (a b : t) : bool := ltb a b || eqb a b.

(** The day after and the day before. *)
Definition next_day (d : t) : t :=
  if day d <? days_in_month (year d) (month d)
  then mk (year d) (month d) (day d + 1)
  else if month d <? 12 then mk (year d) (month d + 1) 1
  else mk (year d + 1) 1 1.

Definition prev_day (d : t) : t :=
  if 1 <? day d then mk (year d) (month d) (day d - 1)
  else if 1 <? month d
  then mk (year d) (month d - 1) (days_in_month (year d) (month d - 1))
  else mk (year d - 1) 12 31.

(** The date [n] days away from [d] ([fromordinal (toordinal d + n)]),
    reached one day at a time. *)
Definition shift (d : t) (n : Z) : t :=
  if 0 <=? n then Nat.iter (Z.to_nat n) next_day d
  else Nat.iter (Z.to_nat (- n)) prev_day d.

(** [d + datetime.timedelta(days=n)].  [timedelta] itself refuses more
    than 999999999 days, the sum refuses a day number outside
    [1 .. MAXORDINAL]; both are [OverflowError], here [None]. *)
Definition add_days (d : t) (n : Z) : option t :=
  if 999999999 <? Z.abs n then None
  else
    let o := toordinal d + n in
    if (0 <? o) && (o <=? MAXORDINAL) then Some (shift d n) else None.
End Date.

(** ** [datetime.datetime] without time zone, as [datetime.now()] returns it *)

Module DateTime.
Record t : Type := mk {
  date : Date.t;
  hour : Z;
  minute : Z;
  second : Z;
  microsecond : Z
}.

Definition validb (x : t) : bool :=
  Date.validb (date x)
  && (0 <=? hour x) && (hour x <? 24)
  && (0 <=? minute x) && (minute x <? 60)
  && (0 <=? second x) && (second x <? 60)
  && (0 <=? microsecond x) && (microsecond x <? 1000000).

Definition valid (x : t) : Prop := validb x = true.
End DateTime.

(** ** ISO-8601 text: [isoformat], and a reader for it

    [isoformat] writes one shape of text.  The readers of this module
    accept that shape and nothing else; they are not the library's
    [fromisoformat], which accepts more and differs between Python
    versions (see [iso_library] below). *)

Module Iso.
Definition digit_char (k : Z) : ascii := ascii_of_nat (48 + Z.to_nat k).

Definition digit_val (c : ascii) : option Z :=
  let n := nat_of_ascii c in
  if ((48 <=? n) && (n <=? 57))%nat then Some (Z.of_nat n - 48) else None.

(** ["%0wd" % n] for [0 <= n < 10^w]: the [w] low decimal digits. *)
Fixpoint fmt (w : nat) (n : Z) : string :=
  match w with
  | O => EmptyString
  | S w' => String (digit_char ((n / 10 ^ Z.of_nat w') mod 10)) (fmt w' n)
  end.

(** Read exactly [w] decimal digits; [acc] is the number read so far. *)
Fixpoint digits (w : nat) (acc : Z) (s : string) : option (Z * string) :=
  match w with
  | O => Some (acc, s)
  | S w' =>
      match s with
      | String c s' =>
          match digit_val c with
          | Some v => digits w' (10 * acc + v) s'
          | None => None
          end
      | EmptyString => None
      end
  end.

(** Read one given character. *)
Definition expect (c : ascii) (s : string) : option string :=
  match s with
  | String c' s' => if Ascii.eqb c c' then Some s' else None
  | EmptyString => None
  end.

(** [date.isoformat()]: ["%04d-%02d-%02d"]. *)
Definition date_isoformat (d : Date.t) : string :=
  fmt 4 (Date.year d) ++ "-" ++ fmt 2 (Date.month d) ++ "-"
    ++ fmt 2 (Date.day d).

(** The leading [YYYY-MM-DD] of a text, range-checked as the [date]
    constructor does, with the text that follows. *)
Definition parse_date (s : string) : option (Date.t * string) :=
  match digits 4 0 s with
  | Some (y, s1) =>
      match expect "-" s1 with
      | Some s2 =>
          match digits 2 0 s2 with
          | Some (m, s3) =>
              match expect "-" s3 with
              | Some s4 =>
                  match digits 2 0 s4 with
                  | Some (d, s5) =>
                      let r := Date.mk y m d in
                      if Date.validb r then Some (r, s5) else None
                  | None => None
                  end
              | None => None
              end
          | None => None
          end
      | None => None
      end
  | None => None
  end.

(** A text of the shape [YYYY-MM-DD], and nothing else, as a date. *)
Definition read_date (s : string) : option Date.t :=
  match parse_date s with
  | Some (d, EmptyString) => Some d
  | _ => None
  end.

(** [datetime.isoformat()]: ["YYYY-MM-DDTHH:MM:SS"], followed by
    [".ffffff"] when the microsecond is not zero. *)
Definition datetime_isoformat (x : DateTime.t) : string :=
  date_isoformat (DateTime.date x) ++ "T"
    ++ fmt 2 (DateTime.hour x) ++ ":" ++ fmt 2 (DateTime.minute x) ++ ":"
    ++ fmt 2 (DateTime.second x)
    ++ (if DateTime.microsecond x =? 0 then EmptyString
        else "." ++ fmt 6 (DateTime.microsecond x)).

(** A text of one of the two shapes above (with any single separator
    character after the date), and nothing else, as a timestamp. *)
Definition read_datetime (s : string) : option DateTime.t :=
  match parse_date s with
  | Some (d, String _ s1) =>
      match digits 2 0 s1 with
      | Some (h, s2) =>
          match expect ":" s2 with
          | Some s3 =>
              match digits 2 0 s3 with
              | Some (mi, s4) =>
                  match expect ":" s4 with
                  | Some s5 =>
                      match digits 2 0 s5 with
                      | Some (se, s6) =>
                          let finish us :=
                            let r := DateTime.mk d h mi se us in
                            if DateTime.validb r then Some r else None in
                          match s6 with
                          | EmptyString => finish 0
                          | String c s7 =>
                              if Ascii.eqb c "." then
                                match digits 6 0 s7 with
                                | Some (us, EmptyString) => finish us
                                | _ => None
                                end
                              else None
                          end
                      | None => None
                      end
                  | None => None
                  end
              | None => None
              end
          | None => None
          end
      | None => None
      end
  | _ => None
  end.
End Iso.

(** ** [@dataclass class Task] *)

Module Task.
Record t : Type := mk {
  id : Z;
  title : string;
  description : string;
  deadline : Date.t;
  priority : Priority;
  assigned_to : string;
  status : string;
  created_at : DateTime.t
}.

(** [task.status = s] *)
Definition set_status (x : t) (s : string) : t :=
  mk (id x) (title x) (description x) (deadline x) (priority x)
     (assigned_to x) s (created_at x).

(** [task.assigned_to = n] *)
Definition set_assigned_to (x : t) (n : string) : t :=
  mk (id x) (title x) (description x) (deadline x) (priority x)
     n (status x) (created_at x).

(** What the types of the fields guarantee: both dates are objects the
    [datetime] constructors can build. *)
Definition valid (x : t) : Prop :=
  Date.valid (deadline x) /\ DateTime.valid (created_at x).
End Task.

(** A reference to a [Task] object: its index in the object store. *)
Abbreviation ref := nat (only parsing).

(** ** [@dataclass class TeamMember] *)

Module TeamMember.
Record t : Type := mk {
  name : string;
  email : string;
  tasks : list ref;
  workload : Z
}.

(** [member.tasks.append(r); member.workload += w] *)
Definition assign (r : ref) (w : Z) (m : t) : t :=
  mk (name m) (email m) (tasks m ++ [r]) (workload m + w).
End TeamMember.

(** ** Dictionaries in insertion order

    [team_members] is a [dict]: keys are unique, iteration follows the
    order of first insertion. *)

Section Dict.
Context {V : Type}.

Fixpoint dict_get (k : string) (d : list (string * V)) : option V :=
  match d with
  | [] => None
  | (k', v) :: d' => if String.eqb k k' then Some v else dict_get k d'
  end.

(** [k in d] *)
Definition dict_mem (k : string) (d : list (string * V)) : bool :=
  match dict_get k d with Some _ => true | None => false end.

(** [d[k] = v]: an existing key keeps its place. *)
Fixpoint dict_set (k : string) (v : V) (d : list (string * V))
  : list (string * V) :=
  match d with
  | [] => [(k, v)]
  | (k', v') :: d' =>
      if String.eqb k k' then (k, v) :: d' else (k', v') :: dict_set k v d'
  end.

(** Mutation of the object stored under [k]. *)
Fixpoint dict_alter (f : V -> V) (k : string) (d : list (string * V))
  : list (string * V) :=
  match d with
  | [] => []
  | (k', v) :: d' =>
      if String.eqb k k' then (k', f v) :: d'
      else (k', v) :: dict_alter f k d'
  end.

(** [d.values()] *)
Definition dict_values (d : list (string * V)) : list V := map snd d.

Definition dict_keys (d : list (string * V)) : list string := map fst d.
End Dict.

(** ** The SQLite tables of [create_tables]

    Columns hold what [save_data] binds: integers and text.  [tasks.id]
    is an [INTEGER PRIMARY KEY], so the table is keyed and scanned by it;
    [team_members.name] is a [TEXT PRIMARY KEY] on an ordinary table,
    scanned in insertion order.  A second row with an existing key is
    refused with [IntegrityError].  An integer column takes a signed
    64-bit value: binding a Python [int] outside that range raises
    [OverflowError] before the statement runs. *)

Record task_row : Type := mk_task_row {
  row_id : Z;
  row_title : string;
  row_description : string;
  row_deadline : string;
  row_priority : string;
  row_assigned_to : string;
  row_status : string;
  row_created_at : string
}.

Record member_row : Type := mk_member_row {
  row_name : string;
  row_email : string;
  row_workload : Z
}.

Record database : Type := mk_database {
  tbl_tasks : list task_row;
  tbl_team_members : list member_row
}.

(** Place of a row in the [tasks] table: before the first larger key. *)
Fixpoint insert_by_id (r : task_row) (t : list task_row) : list task_row :=
  match t with
  | [] => [r]
  | r' :: t' =>
      if row_id r <? row_id r' then r :: r' :: t'
      else r' :: insert_by_id r t'
  end.

(** What [sqlite3] can bind as an INTEGER. *)
Definition int64 (z : Z) : bool :=
  (-9223372036854775808 <=? z) && (z <=? 9223372036854775807).

Definition has_id (i : Z) (t : list task_row) : bool :=
  existsb (fun r => row_id r =? i) t.

Definition has_name (n : string) (t : list member_row) : bool :=
  existsb (fun r => String.eqb (row_name r) n) t.

(** ** Exceptions and the monad of the methods

    A method runs on the manager's state and either returns or raises;
    what it changed before raising stays changed. *)

Inductive exn : Type :=
| ValueError (msg : string)
| KeyError (key : string)
| OverflowError
| IntegrityError
| ReferenceError.   (* a reference that names no object: outside Python *)

Inductive Result (A : Type) : Type :=
| Ok (a : A)
| Raise (e : exn).
Arguments Ok {A} a.
Arguments Raise {A} e.

(** ** The [fromisoformat] functions of the library

    [datetime.date.fromisoformat] and [datetime.datetime.fromisoformat]
    read back the text that [isoformat] writes.  What else they accept,
    and the exception they raise on the rest, depends on the Python
    version; [load_data] takes the two functions as they come. *)
Record iso_library : Type := mk_library {
  lib_date_fromisoformat : string -> Result Date.t;
  lib_datetime_fromisoformat : string -> Result DateTime.t
}.

(** A library that reads the text of [isoformat] and refuses all other
    text, for running the code on examples. *)
Definition canonical_library : iso_library :=
  mk_library
    (fun text =>
       match Iso.read_date text with
       | Some d => Ok d
       | None => Raise (ValueError ("Invalid isoformat string: '" ++ text ++ "'"))
       end)
    (fun text =>
       match Iso.read_datetime text with
       | Some x => Ok x
       | None => Raise (ValueError ("Invalid isoformat string: '" ++ text ++ "'"))
       end).

Record TaskManager : Type := mk_manager {
  heap : list Task.t;                           (* the Task objects *)
  tasks : list ref;                             (* self.tasks *)
  team_members : list (string * TeamMember.t);  (* self.team_members *)
  db : database                                 (* behind self.conn *)
}.

Definition M (A : Type) : Type := TaskManager -> Result A * TaskManager.

#[global] Instance M_ret : MRet M := fun A a s => (Ok a, s).

#[global] Instance M_bind : MBind M := fun A B f m s =>
  match m s with
  | (Ok a, s') => f a s'
  | (Raise e, s') => (Raise e, s')
  end.

Definition raise {A : Type} (e : exn) : M A := fun s => (Raise e, s).
Definition gets {A : Type} (f : TaskManager -> A) : M A := fun s => (Ok (f s), s).
Definition modify (f : TaskManager -> TaskManager) : M unit := fun s => (Ok tt, f s).

(** [for x in l: body(x)] *)
Fixpoint for_each {A : Type} (body : A -> M unit) (l : list A) : M unit :=
  match l with
  | [] => mret tt
  | x :: l' => body x ;; for_each body l'
  end.

(** State updates, one per kind of assignment in the source. *)
Definition with_heap (h : list Task.t) (s : TaskManager) : TaskManager :=
  mk_manager h (tasks s) (team_members s) (db s).
Definition with_tasks (l : list ref) (s : TaskManager) : TaskManager :=
  mk_manager (heap s) l (team_members s) (db s).
Definition with_team_members (d : list (string * TeamMember.t))
  (s : TaskManager) : TaskManager :=
  mk_manager (heap s) (tasks s) d (db s).
Definition with_db (d : database) (s : TaskManager) : TaskManager :=
  mk_manager (heap s) (tasks s) (team_members s) d.

(** Reading a [Task] object through a reference. *)
Definition deref (r : ref) : M Task.t := fun s =>
  match heap s !! r with
  | Some t => (Ok t, s)
  | None => (Raise ReferenceError, s)
  end.

(** [Task(...)]: a new object. *)
Definition new_task (t : Task.t) : M ref := fun s =>
  (Ok (length (heap s)), with_heap (heap s ++ [t]) s).

(** The objects behind a list of references, all or nothing. *)
Fixpoint resolve (h : list Task.t) (l : list ref) : option (list Task.t) :=
  match l with
  | [] => Some []
  | r :: l' =>
      match h !! r, resolve h l' with
      | Some t, Some ts => Some (t :: ts)
      | _, _ => None
      end
  end.

Definition resolve_all (l : list ref) : M (list Task.t) := fun s =>
  match resolve (heap s) l with
  | Some ts => (Ok ts, s)
  | None => (Raise ReferenceError, s)
  end.

(** ** [class TaskManager] *)

(** *** Persistence *)

Definition task_to_row (t : Task.t) : task_row :=
  mk_task_row (Task.id t) (Task.title t) (Task.description t)
    (Iso.date_isoformat (Task.deadline t)) (Priority.name (Task.priority t))
    (Task.assigned_to t) (Task.status t)
    (Iso.datetime_isoformat (Task.created_at t)).

Definition member_to_row (m : TeamMember.t) : member_row :=
  mk_member_row (TeamMember.name m) (TeamMember.email m)
    (TeamMember.workload m).

(** [INSERT INTO tasks ... VALUES (...)] *)
Definition insert_task_row (r : task_row) : M unit := fun s =>
  if negb (int64 (row_id r)) then (Raise OverflowError, s)
  else if has_id (row_id r) (tbl_tasks (db s)) then (Raise IntegrityError, s)
  else
    (Ok tt,
     with_db (mk_database (insert_by_id r (tbl_tasks (db s)))
                (tbl_team_members (db s))) s).

(** [INSERT INTO team_members ... VALUES (...)] *)
Definition insert_member_row (r : member_row) : M unit := fun s =>
  if negb (int64 (row_workload r)) then (Raise OverflowError, s)
  else if has_name (row_name r) (tbl_team_members (db s))
  then (Raise IntegrityError, s)
  else
    (Ok tt,
     with_db (mk_database (tbl_tasks (db s))
                (tbl_team_members (db s) ++ [r])) s).

Definition save_data : M unit :=
  modify (with_db (mk_database [] [])) ;;
  ts ← gets tasks ;
  for_each (fun r => t ← deref r ; insert_task_row (task_to_row t)) ts ;;
  ms ← gets team_members ;
  for_each (fun m => insert_member_row (member_to_row m)) (dict_values ms).

(** One row of [tasks] back into a [Task] object.  The arguments of the
    constructor are evaluated in order: the deadline is read first, then
    the priority name is looked up (an unknown name is a [KeyError]),
    then the timestamp is read; what the library raises is raised. *)
Definition task_of_row (lib : iso_library) (r : task_row) : Result Task.t :=
  match lib_date_fromisoformat lib (row_deadline r) with
  | Raise e => Raise e
  | Ok dl =>
      match Priority.of_name (row_priority r) with
      | None => Raise (KeyError (row_priority r))
      | Some p =>
          match lib_datetime_fromisoformat lib (row_created_at r) with
          | Raise e => Raise e
          | Ok ca =>
              Ok (Task.mk (row_id r) (row_title r) (row_description r) dl p
                    (row_assigned_to r) (row_status r) ca)
          end
      end
  end.

(** [TeamMember(name=row[0], email=row[1], workload=row[2])]: the task
    list is the default, empty. *)
Definition member_of_row (r : member_row) : TeamMember.t :=
  TeamMember.mk (row_name r) (row_email r) [] (row_workload r).

Definition load_data (lib : iso_library) : M unit :=
  modify (with_tasks []) ;;
  modify (with_team_members []) ;;
  rows ← gets (fun s => tbl_tasks (db s)) ;
  for_each (fun row =>
              match task_of_row lib row with
              | Raise e => raise e
              | Ok t =>
                  r ← new_task t ;
                  modify (fun s => with_tasks (tasks s ++ [r]) s)
              end) rows ;;
  mrows ← gets (fun s => tbl_team_members (db s)) ;
  for_each (fun row =>
              modify (fun s =>
                with_team_members
                  (dict_set (row_name row) (member_of_row row)
                     (team_members s)) s)) mrows.

(** [TaskManager(db_name)] on a database file with the given content:
    [create_tables] leaves existing tables alone, [load_data] fills the
    collections. *)
Definition blank (d : database) : TaskManager := mk_manager [] [] [] d.

Definition empty_db : database := mk_database [] [].

(** *** Task creation *)

(** [max(ids, default=0)] *)
Definition max_default0 (ids : list Z) : Z :=
  match ids with
  | [] => 0
  | i :: rest => fold_left Z.max rest i
  end.

Definition add_task (title description : string) (deadline : Date.t)
  (priority : Priority) (assigned_to : string) (now : DateTime.t) : M ref :=
  ts ← (l ← gets tasks ; resolve_all l) ;
  let task_id := max_default0 (map Task.id ts) + 1 in
  task ← new_task (Task.mk task_id title description deadline priority
                     assigned_to "Not Started" now) ;
  modify (fun s => with_tasks (tasks s ++ [task]) s) ;;
  ms ← gets team_members ;
  if negb (dict_mem assigned_to ms)
  then raise (ValueError ("Team member " ++ assigned_to ++ " does not exist"))
  else
    modify (fun s =>
      with_team_members
        (dict_alter (TeamMember.assign task (Priority.value priority))
           assigned_to (team_members s)) s) ;;
    save_data ;;
    mret task.

(** *** Status update *)

Fixpoint update_task_status_loop (task_id : Z) (new_status : string)
  (l : list ref) : M unit :=
  match l with
  | [] => mret tt
  | r :: l' =>
      task ← deref r ;
      if Task.id task =? task_id then
        modify (fun s =>
          with_heap (<[r := Task.set_status task new_status]> (heap s)) s) ;;
        save_data
      else update_task_status_loop task_id new_status l'
  end.

Definition update_task_status (task_id : Z) (new_status : string) : M unit :=
  l ← gets tasks ; update_task_status_loop task_id new_status l.

(** *** Queries *)

(** [[x for x in l if keep(x)]] over referenced tasks *)
Fixpoint select (keep : Task.t -> bool) (l : list ref) : M (list ref) :=
  match l with
  | [] => mret []
  | r :: l' =>
      task ← deref r ;
      rest ← select keep l' ;
      mret (if keep task then r :: rest else rest)
  end.

Definition get_tasks_by_priority (priority : Priority) : M (list ref) :=
  l ← gets tasks ;
  select (fun task => Priority.eqb (Task.priority task) priority) l.

(** [today] is [datetime.date.today()] at the time of the call. *)
Definition get_upcoming_deadlines (days : Z) (today : Date.t) : M (list ref) :=
  match Date.add_days today days with
  | None => raise OverflowError
  | Some deadline =>
      l ← gets tasks ;
      select (fun task => Date.leb today (Task.deadline task)
                          && Date.leb (Task.deadline task) deadline) l
  end.

(** The sort key [(x.priority.value, x.deadline)] and the order of tuples. *)
Definition sort_key (x : Task.t) : Z * Date.t :=
  (Priority.value (Task.priority x), Task.deadline x).

Definition key_ltb (a b : Z * Date.t) : bool :=
  (a.1 <? b.1) || ((a.1 =? b.1) && Date.ltb a.2 b.2).

(** [sorted(l, key=key, reverse=True)]: descending and stable, an item
    stays in front of the later items with an equal key. *)
Section Sorted.
Context {A : Type} (key : A -> Z * Date.t).

Fixpoint insert_desc (x : A) (l : list A) : list A :=
  match l with
  | [] => [x]
  | y :: l' =>
      if key_ltb (key x) (key y) then y :: insert_desc x l'
      else x :: y :: l'
  end.

Fixpoint sorted_reverse (l : list A) : list A :=
  match l with
  | [] => []
  | x :: l' => insert_desc x (sorted_reverse l')
  end.
End Sorted.

Definition generate_to_do_list (team_member : string) : M (list ref) :=
  ms ← gets team_members ;
  match dict_get team_member ms with
  | Some m =>
      ts ← resolve_all (TeamMember.tasks m) ;
      mret (map fst
              (sorted_reverse (fun x => sort_key x.2)
                 (zip (TeamMember.tasks m) ts)))
  | None => mret []
  end.

(** *** Allocation by workload *)

(** [min(values, key=lambda x: x.workload)], with the position of the
    chosen item: the scan keeps the first item and replaces it only by
    one with a strictly smaller key. *)
Fixpoint min_scan (best : nat * TeamMember.t) (i : nat)
  (l : list TeamMember.t) : nat * TeamMember.t :=
  match l with
  | [] => best
  | m :: l' =>
      if TeamMember.workload m <? TeamMember.workload best.2
      then min_scan (i, m) (S i) l'
      else min_scan best (S i) l'
  end.

Definition min_workload (l : list TeamMember.t)
  : option (nat * TeamMember.t) :=
  match l with
  | [] => None
  | m :: l' => Some (min_scan (O, m) 1%nat l')
  end.

Definition allocate_task (task : ref) : M unit :=
  ms ← gets team_members ;
  match min_workload (dict_values ms) with
  | None => raise (ValueError "min() arg is an empty sequence")
  | Some (i, team_member) =>
      t ← deref task ;
      modify (fun s =>
        with_heap
          (<[task := Task.set_assigned_to t (TeamMember.name team_member)]>
             (heap s)) s) ;;
      modify (fun s =>
        with_team_members
          (alter (fun km =>
                    (km.1, TeamMember.assign task
                             (Priority.value (Task.priority t)) km.2))
             i (team_members s)) s) ;;
      save_data
  end.

(** *** Registration *)

Definition add_team_member (name email : string) : M unit :=
  ms ← gets team_members ;
  if negb (dict_mem name ms) then
    modify (with_team_members
              (dict_set name (TeamMember.mk name email [] 0) ms)) ;;
    save_data
  else raise (ValueError ("Team member " ++ name ++ " already exists")).

(** ** Sequences of calls *)

(** The arguments of one [add_task] call, with the clock reading. *)
Record add_task_args : Type := mk_args {
  arg_title : string;
  arg_description : string;
  arg_deadline : Date.t;
  arg_priority : Priority;
  arg_assigned_to : string;
  arg_now : DateTime.t
}.

Definition call_add_task (a : add_task_args) : M ref :=
  add_task (arg_title a) (arg_description a) (arg_deadline a)
    (arg_priority a) (arg_assigned_to a) (arg_now a).

(** The two operations that assign tasks to members. *)
Inductive assign_op : Type :=
| OpAddTask (a : add_task_args)
| OpAllocateTask (task : ref).

(** The state a call leaves behind, whether it returned or raised. *)
Definition after {A : Type} (m : M A) (s : TaskManager) : TaskManager :=
  (m s).2.

Definition outcome {A : Type} (m : M A) (s : TaskManager) : Result A :=
  (m s).1.

Definition run_op (o : assign_op) (s : TaskManager) : TaskManager :=
  match o with
  | OpAddTask a => after (call_add_task a) s
  | OpAllocateTask r => after (allocate_task r) s
  end.

Definition run_ops (ops : list assign_op) (s : TaskManager) : TaskManager :=
  fold_left (fun s o => run_op o s) ops s.

(** A run of [add_task] calls: the outcomes in order and the final state. *)
Fixpoint add_tasks (calls : list add_task_args) (s : TaskManager)
  : list (Result ref) * TaskManager :=
  match calls with
  | [] => ([], s)
  | a :: rest =>
      let '(o, s1) := call_add_task a s in
      let '(os, s2) := add_tasks rest s1 in
      (o :: os, s2)
  end.

(** *** Productivity report *)

(** The [completion_rate] of a report entry: the integer [0] for a member
    without tasks, otherwise the float quotient [completed / total], kept
    here as its two operands. *)
Inductive rate : Type :=
| RateZero
| RateQuotient (completed total : Z).

Record report_entry : Type := mk_entry {
  completed_tasks : Z;
  total_tasks : Z;
  completion_rate : rate;
  entry_workload : Z
}.

(** [len([task for task in ts if task.status == "Completed"])] *)
Definition count_completed (ts : list Task.t) : Z :=
  Z.of_nat (length (List.filter
                      (fun task => String.eqb (Task.status task) "Completed")
                      ts)).

Definition report_member (ts : list Task.t) (m : TeamMember.t)
  : report_entry :=
  let completed := count_completed ts in
  let total := Z.of_nat (length ts) in
  mk_entry completed total
    (if 0 <? total then RateQuotient completed total else RateZero)
    (TeamMember.workload m).

Fixpoint report_loop (ms : list TeamMember.t)
  (report : list (string * report_entry)) : M (list (string * report_entry)) :=
  match ms with
  | [] => mret report
  | m :: ms' =>
      ts ← resolve_all (TeamMember.tasks m) ;
      report_loop ms' (dict_set (TeamMember.name m) (report_member ts m) report)
  end.

Definition generate_productivity_report : M (list (string * report_entry)) :=
  ms ← gets team_members ;
  report_loop (dict_values ms) [].

(** *** Reminders

    [self.config['EMAIL']] holds the two settings; the mail server is the
    environment: given a message it accepts it ([None]) or fails with
    the text of an exception.  What a call prints and hands to the server
    is returned as a list of events, in order. *)

Record email_config : Type := mk_config {
  sender_email : string;
  sender_password : string
}.

Record mail : Type := mk_mail {
  mail_from : string;
  mail_to : string;
  mail_subject : string;
  mail_body : string
}.

Inductive event : Type :=
| Printed (line : string)
| Tried (m : mail).          (* the SMTP block was run with this message *)

Definition reminder_body (task : Task.t) : string :=
  "
        Dear " ++ Task.assigned_to task ++ ",

        This is a reminder that the following task is due soon:

        Title: " ++ Task.title task ++ "
        Description: " ++ Task.description task ++ "
        Deadline: " ++ Iso.date_isoformat (Task.deadline task) ++ "
        Priority: " ++ Priority.name (Task.priority task) ++ "

        Please ensure this task is completed on time.

        Best regards,
        Task Management System
        ".

(** [not s] on a string *)
Definition is_empty (s : string) : bool :=
  match s with EmptyString => true | String _ _ => false end.

Definition send_reminder_email (cfg : email_config)
  (smtp : mail -> option string) (task : ref) : M (list event) :=
  if is_empty (sender_email cfg) || is_empty (sender_password cfg) then
    mret [Printed "Email configuration is not set up. Please use the 'Configure Email' option in the main menu."]
  else
    t ← deref task ;
    ms ← gets team_members ;
    match dict_get (Task.assigned_to t) ms with
    | None => raise (KeyError (Task.assigned_to t))
    | Some member =>
        let message :=
          mk_mail (sender_email cfg) (TeamMember.email member)
            ("Reminder: Task '" ++ Task.title t ++ "' Due Soon")
            (reminder_body t) in
        match smtp message with
        | None =>
            mret [Tried message;
                  Printed ("Reminder email sent to " ++ Task.assigned_to t)]
        | Some err =>
            mret [Tried message;
                  Printed ("Failed to send email: " ++ err)]
        end
    end.

(** [(task.deadline - today).days <= 2 and task.status != "Completed"] *)
Definition due_soon (today : Date.t) (task : Task.t) : bool :=
  (Date.toordinal (Task.deadline task) - Date.toordinal today <=? 2)
  && negb (String.eqb (Task.status task) "Completed").

(** [for task in upcoming_tasks: self.send_reminder_email(task)].  What
    the earlier rounds printed and handed to the server stays done when a
    later round raises: the events come beside the outcome. *)
Fixpoint send_each (cfg : email_config) (smtp : mail -> option string)
  (l : list ref) (s : TaskManager) : list event * Result unit * TaskManager :=
  match l with
  | [] => ([], Ok tt, s)
  | task :: l' =>
      match send_reminder_email cfg smtp task s with
      | (Ok es, s1) =>
          let '(rest, o, s2) := send_each cfg smtp l' s1 in
          (es ++ rest, o, s2)
      | (Raise e, s1) => ([], Raise e, s1)
      end
  end.

Definition send_reminders (cfg : email_config)
  (smtp : mail -> option string) (today : Date.t) (s : TaskManager)
  : list event * Result unit * TaskManager :=
  match (l ← gets tasks ; select (due_soon today) l) s with
  | (Ok upcoming_tasks, s1) => send_each cfg smtp upcoming_tasks s1
  | (Raise e, s1) => ([], Raise e, s1)
  end.

(** *** Any sequence of the mutating methods *)

Inductive manager_op : Type :=
| DoAddTask (a : add_task_args)
| DoUpdateStatus (task_id : Z) (new_status : string)
| DoAllocateTask (task : ref)
| DoAddTeamMember (name email : string).

Definition run_manager_op (o : manager_op) (s : TaskManager) : TaskManager :=
  match o with
  | DoAddTask a => after (call_add_task a) s
  | DoUpdateStatus i st => after (update_task_status i st) s
  | DoAllocateTask r => after (allocate_task r) s
  | DoAddTeamMember n e => after (add_team_member n e) s
  end.

Definition run_manager_ops (ops : list manager_op) (s : TaskManager)
  : TaskManager :=
  fold_left (fun s o => run_manager_op o s) ops s.

(** ** Notions used in the statements *)

(** [sum(t.priority.value for t in ts)] *)
Definition priority_sum (ts : list Task.t) : Z :=
  fold_right Z.add 0 (map (fun t => Priority.value (Task.priority t)) ts).

(** The sum of the priority values over a member's task list. *)
Definition member_load (h : list Task.t) (m : TeamMember.t) : option Z :=
  match resolve h (TeamMember.tasks m) with
  | Some ts => Some (priority_sum ts)
  | None => None
  end.

(** Every member's [workload] field is the sum over its task list. *)
Definition workload_consistent (s : TaskManager) : Prop :=
  Forall (fun km => member_load (heap s) km.2 = Some (TeamMember.workload km.2))
    (team_members s).

(** [name in self.team_members] *)
Definition registered (name : string) (s : TaskManager) : Prop :=
  dict_mem name (team_members s) = true.

(** The in-memory collections of two states agree (the database may not). *)
Definition same_memory (s s' : TaskManager) : Prop :=
  heap s' = heap s /\ tasks s' = tasks s /\ team_members s' = team_members s.

(** Position [j] holds [m], the first member of least workload: nobody
    has less, and nobody before [j] has as little. *)
Definition first_min (l : list TeamMember.t) (j : nat) (m : TeamMember.t)
  : Prop :=
  l !! j = Some m
  /\ forall k m', l !! k = Some m' ->
        TeamMember.workload m <= TeamMember.workload m'
        /\ (TeamMember.workload m' <= TeamMember.workload m -> (j <= k)%nat).

(** Task [a] may stand in front of task [b] in a to-do list: its priority
    is higher, or equal with a deadline that is not earlier. *)
Definition goes_before (a b : Task.t) : Prop :=
  Priority.value (Task.priority b) < Priority.value (Task.priority a)
  \/ (Priority.value (Task.priority a) = Priority.value (Task.priority b)
      /\ Date.leb (Task.deadline b) (Task.deadline a) = true).

(** The references of [l], in order, whose objects [ts] pass [keep]. *)
Definition pick (keep : Task.t -> bool) (l : list ref) (ts : list Task.t)
  : list ref :=
  map fst (List.filter (fun p => keep p.2) (zip l ts)).

(** The deadline is one of the days [today .. today + days]. *)
Definition in_window (today : Date.t) (days : Z) (t : Task.t) : bool :=
  (Date.toordinal today <=? Date.toordinal (Task.deadline t))
  && (Date.toordinal (Task.deadline t) <=? Date.toordinal today + days).

(** The field values of the members, tasks read through the references. *)
Definition member_view (h : list Task.t) (m : TeamMember.t)
  : string * string * option (list Task.t) * Z :=
  (TeamMember.name m, TeamMember.email m, resolve h (TeamMember.tasks m),
   TeamMember.workload m).

Definition members_view (s : TaskManager)
  : list (string * string * option (list Task.t) * Z) :=
  map (fun km => member_view (heap s) km.2) (team_members s).

(** Ids handed out one after the other, [prev] being the ids in the task
    list before: each is the largest so far plus one (1 on an empty
    list), positive, and above all the earlier ones. *)
Fixpoint issued_ok (prev news : list Z) : Prop :=
  match news with
  | [] => True
  | i :: rest =>
      i = max_default0 prev + 1
      /\ 0 < i
      /\ Forall (fun j => j < i) prev
      /\ (prev = [] -> i = 1)
      /\ issued_ok (prev ++ [i]) rest
  end.

(** The ids along the task list go up strictly. *)
Definition ids_increasing (ts : list Task.t) : Prop :=
  StronglySorted Z.lt (map Task.id ts).

(** The library reads back what [isoformat] writes. *)
Definition reads_isoformat (lib : iso_library) : Prop :=
  (forall d, Date.valid d ->
             lib_date_fromisoformat lib (Iso.date_isoformat d) = Ok d)
  /\ (forall x, DateTime.valid x ->
                lib_datetime_fromisoformat lib (Iso.datetime_isoformat x)
                = Ok x).

(** The ids, and the workloads, are integers that SQLite can store. *)
Definition ids_fit (ts : list Task.t) : Prop :=
  Forall (fun t => int64 (Task.id t) = true) ts.

Definition workloads_fit (s : TaskManager) : Prop :=
  Forall (fun km => int64 (TeamMember.workload km.2) = true) (team_members s).

(** Room for [n] more tasks: the next [n] ids and the workloads after [n]
    more tasks, of priority value 3 at most, are still 64-bit integers. *)
Definition room_for (n : nat) (s : TaskManager) (ts : list Task.t) : Prop :=
  max_default0 (map Task.id ts) + Z.of_nat n <= 9223372036854775807
  /\ Forall (fun km =>
               -9223372036854775808 <= TeamMember.workload km.2
               /\ TeamMember.workload km.2 + 3 * Z.of_nat n
                  <= 9223372036854775807)
       (team_members s).

(** No two members carry the same [name] field. *)
Definition names_distinct (s : TaskManager) : Prop :=
  NoDup (map TeamMember.name (dict_values (team_members s))).

(** Every entry of the task list is an object, and along the list the
    ids are positive and go up. *)
Definition ids_well_formed (s : TaskManager) : Prop :=
  exists ts,
    resolve (heap s) (tasks s) = Some ts
    /\ ids_increasing ts
    /\ Forall (fun i => 0 < i) (map Task.id ts).

(** The report line of a member whose task list holds the objects [ts]. *)
Definition expected_entry (ts : list Task.t) (m : TeamMember.t)
  : report_entry :=
  mk_entry (count_completed ts) (Z.of_nat (length ts))
    (match ts with
     | [] => RateZero
     | _ :: _ => RateQuotient (count_completed ts) (Z.of_nat (length ts))
     end)
    (TeamMember.workload m).

(** Every task list of a member resolves to objects. *)
Definition members_closed (s : TaskManager) : Prop :=
  Forall (fun km => exists ts,
            resolve (heap s) (TeamMember.tasks km.2) = Some ts)
    (team_members s).

(** The messages for which the SMTP block was run, in order. *)
Fixpoint tried (es : list event) : list mail :=
  match es with
  | [] => []
  | Tried m :: es' => m :: tried es'
  | Printed _ :: es' => tried es'
  end.

(** The reminder for task [t], from [sender] to [member]. *)
Definition reminder (sender : string) (member : TeamMember.t) (t : Task.t)
  : mail :=
  mk_mail sender (TeamMember.email member)
    ("Reminder: Task '" ++ Task.title t ++ "' Due Soon") (reminder_body t).

Definition has_credentials (cfg : email_config) : Prop :=
  sender_email cfg <> EmptyString /\ sender_password cfg <> EmptyString.

(** ** Sample states, for running the code on concrete inputs *)

Definition jan10 : Date.t := Date.mk 2024 1 10.
Definition clock : DateTime.t := DateTime.mk jan10 9 5 0 120.

(** A fresh database, then Alice and Bob register. *)
Definition fresh : TaskManager :=
  (load_data canonical_library (blank empty_db)).2.
Definition team : TaskManager :=
  (add_team_member "Bob" "bob@example.org"
     ((add_team_member "Alice" "alice@example.org" fresh).2)).2.

(** Bob gets a first task. *)
Definition team_one_task : TaskManager :=
  (add_task "Write report" "Quarterly" jan10 HIGH "Bob" clock team).2.

(** Alice holds a MEDIUM task due 2024-01-10 and two HIGH tasks due
    2024-01-05 and 2024-01-20, created in this order. *)
Definition alice_three : TaskManager :=
  let s0 := (add_team_member "Alice" "alice@example.org" fresh).2 in
  let s1 := (add_task "a" "" (Date.mk 2024 1 10) MEDIUM "Alice" clock s0).2 in
  let s2 := (add_task "b" "" (Date.mk 2024 1 5) HIGH "Alice" clock s1).2 in
  (add_task "c" "" (Date.mk 2024 1 20) HIGH "Alice" clock s2).2.

(** Alice holds two HIGH tasks due 2024-01-20 with a LOW task due
    2024-01-05 between them. *)
Definition alice_ties : TaskManager :=
  let s0 := (add_team_member "Alice" "alice@example.org" fresh).2 in
  let s1 := (add_task "a" "" (Date.mk 2024 1 20) HIGH "Alice" clock s0).2 in
  let s2 := (add_task "b" "" (Date.mk 2024 1 5) LOW "Alice" clock s1).2 in
  (add_task "c" "" (Date.mk 2024 1 20) HIGH "Alice" clock s2).2.

(** Bob has a task, and a task for the unregistered Carol was refused. *)
Definition team_with_stray : TaskManager :=
  (add_task "Call" "Client" (Date.mk 2024 1 11) LOW "Carol" clock
     team_one_task).2.

(* ================================================================== *)
(** * Part II: properties *)
(* ================================================================== *)

(** ** The calendar *)

Section CalendarFacts.
Import Date.

Lemma valid_in_year d : valid d -> in_year d.
Proof.
  unfold valid, validb, in_year. rewrite !andb_true_iff. lia.
Qed.

Lemma valid_year d : valid d -> MINYEAR <= year d <= MAXYEAR.
Proof. unfold valid, validb. rewrite !andb_true_iff. lia. Qed.

Lemma valid_intro d :
  in_year d -> MINYEAR <= year d <= MAXYEAR -> valid d.
Proof. unfold valid, validb, in_year. rewrite !andb_true_iff. lia. Qed.

Ltac month_cases m :=
  let H := fresh in
  assert (H : m = 1 \/ m = 2 \/ m = 3 \/ m = 4 \/ m = 5 \/ m = 6 \/ m = 7
              \/ m = 8 \/ m = 9 \/ m = 10 \/ m = 11 \/ m = 12) by lia;
  repeat (destruct H as [H | H]); subst m.

Lemma days_before_year_succ y :
  days_before_year (y + 1)
  = days_before_year y + 365 + (if is_leap y then 1 else 0).
Proof.
  unfold days_before_year, is_leap. cbv zeta.
  replace (y + 1 - 1) with y by lia.
  destruct (Z.eqb_spec (y mod 4) 0), (Z.eqb_spec (y mod 100) 0),
    (Z.eqb_spec (y mod 400) 0); simpl; Z.div_mod_to_equations; lia.
Qed.

Lemma days_before_year_mono a b :
  a <= b -> days_before_year a <= days_before_year b.
Proof.
  intros Hab. replace b with (a + Z.of_nat (Z.to_nat (b - a))) by lia.
  induction (Z.to_nat (b - a)) as [|k IH].
  - replace (a + Z.of_nat 0) with a by lia. lia.
  - replace (a + Z.of_nat (S k)) with (a + Z.of_nat k + 1) by lia.
    rewrite days_before_year_succ. destruct (is_leap _); lia.
Qed.

Lemma days_in_month_bounds y m :
  1 <= m <= 12 -> 28 <= days_in_month y m <= 31.
Proof.
  intros Hm. month_cases m; unfold days_in_month;
    try destruct (is_leap y); lia.
Qed.

Lemma days_before_month_succ y m :
  1 <= m < 12 ->
  days_before_month y (m + 1) = days_before_month y m + days_in_month y m.
Proof.
  intros Hm. month_cases m; try lia;
    unfold days_before_month, days_in_month; simpl;
    destruct (is_leap y); simpl; lia.
Qed.

Lemma days_before_month_mono y m1 m2 :
  1 <= m1 -> m1 < m2 <= 12 ->
  days_before_month y m1 + days_in_month y m1 <= days_before_month y m2.
Proof.
  intros H1 H2. month_cases m1; try lia; month_cases m2; try lia;
    unfold days_before_month, days_in_month; simpl;
    destruct (is_leap y); simpl; lia.
Qed.

(** The last day of a year is the day before the next January 1st. *)
Lemma year_end y m :
  1 <= m <= 12 ->
  days_before_year y + days_before_month y m + days_in_month y m
  <= days_before_year (y + 1).
Proof.
  intros Hm. rewrite days_before_year_succ.
  month_cases m; unfold days_before_month, days_in_month; simpl;
    destruct (is_leap y); simpl; lia.
Qed.

Lemma days_before_month_nonneg y m : 0 <= days_before_month y m.
Proof.
  unfold days_before_month.
  destruct ((2 <? m) && is_leap y);
    destruct m as [|p|p]; try lia;
    do 4 (try destruct p as [p|p|]); lia.
Qed.

(** Dates that compare smaller have the smaller day number. *)
Lemma toordinal_lt a b :
  in_year a -> in_year b -> ltb a b = true -> toordinal a < toordinal b.
Proof.
  intros [Ha1 Ha2] [Hb1 Hb2]. unfold ltb, toordinal, ymd2ord.
  repeat (rewrite orb_true_iff || rewrite andb_true_iff).
  rewrite !Z.ltb_lt, !Z.eqb_eq.
  intros [Hy | [Hy [Hm | [Hm Hd]]]].
  - pose proof (year_end (year a) (month a) Ha1).
    pose proof (days_before_year_mono (year a + 1) (year b) ltac:(lia)).
    pose proof (days_before_month_nonneg (year b) (month b)). lia.
  - rewrite Hy in *.
    pose proof (days_before_month_mono (year b) (month a) (month b)
                  ltac:(lia) ltac:(lia)). lia.
  - rewrite Hy, Hm. lia.
Qed.

Lemma eqb_eq a b : eqb a b = true <-> a = b.
Proof.
  unfold eqb. rewrite !andb_true_iff, !Z.eqb_eq.
  destruct a, b; simpl. split; [intros [[-> ->] ->]; reflexivity|].
  intros [= -> -> ->]. auto.
Qed.

(** Any two dates are ordered. *)
Lemma ltb_total a b : ltb a b = true \/ a = b \/ ltb b a = true.
Proof.
  unfold ltb. destruct a as [y1 m1 d1], b as [y2 m2 d2]; simpl.
  repeat (rewrite orb_true_iff || rewrite andb_true_iff).
  rewrite !Z.ltb_lt, !Z.eqb_eq.
  destruct (Z.lt_total y1 y2) as [?|[->|?]]; [lia| |lia].
  destruct (Z.lt_total m1 m2) as [?|[->|?]]; [lia| |lia].
  destruct (Z.lt_total d1 d2) as [?|[->|?]]; [lia| |lia].
  right; left; reflexivity.
Qed.

Lemma leb_toordinal a b :
  in_year a -> in_year b ->
  (leb a b = true <-> toordinal a <= toordinal b).
Proof.
  intros Ha Hb. unfold leb. rewrite orb_true_iff, eqb_eq. split.
  - intros [H | ->]; [apply toordinal_lt in H; auto; lia | lia].
  - intros Hle. destruct (ltb_total a b) as [H | [H | H]]; auto.
    apply toordinal_lt in H; auto. lia.
Qed.

Lemma toordinal_inj a b :
  in_year a -> in_year b -> toordinal a = toordinal b -> a = b.
Proof.
  intros Ha Hb He. destruct (ltb_total a b) as [H | [H | H]]; auto;
    apply toordinal_lt in H; auto; lia.
Qed.

Lemma next_day_spec d :
  in_year d ->
  in_year (next_day d) /\ toordinal (next_day d) = toordinal d + 1.
Proof.
  intros [Hm Hd]. unfold next_day, in_year, toordinal, ymd2ord.
  destruct (Z.ltb_spec (day d) (days_in_month (year d) (month d))); simpl.
  - lia.
  - destruct (Z.ltb_spec (month d) 12); simpl.
    + pose proof (days_in_month_bounds (year d) (month d + 1) ltac:(lia)).
      rewrite days_before_month_succ by lia. lia.
    + assert (month d = 12) as Hd12 by lia. rewrite Hd12 in *.
      rewrite days_before_year_succ.
      unfold days_before_month, days_in_month in *. simpl in *.
      destruct (is_leap (year d)); simpl; lia.
Qed.

Lemma prev_day_spec d :
  in_year d ->
  in_year (prev_day d) /\ toordinal (prev_day d) = toordinal d - 1.
Proof.
  intros [Hm Hd]. unfold prev_day, in_year, toordinal, ymd2ord.
  destruct (Z.ltb_spec 1 (day d)); simpl.
  - lia.
  - destruct (Z.ltb_spec 1 (month d)); simpl.
    + pose proof (days_in_month_bounds (year d) (month d - 1) ltac:(lia)).
      pose proof (days_before_month_succ (year d) (month d - 1) ltac:(lia))
        as Hs.
      replace (month d - 1 + 1) with (month d) in Hs by lia. lia.
    + assert (month d = 1) as Hd1 by lia. rewrite Hd1 in *.
      pose proof (days_before_year_succ (year d - 1)) as Hs.
      replace (year d - 1 + 1) with (year d) in Hs by lia.
      unfold days_before_month, days_in_month in *. simpl in *.
      destruct (is_leap (year d - 1)); simpl; lia.
Qed.

Lemma shift_spec d n :
  in_year d ->
  in_year (shift d n) /\ toordinal (shift d n) = toordinal d + n.
Proof.
  intros Hd. unfold shift. destruct (Z.leb_spec 0 n) as [Hn | Hn].
  - replace n with (Z.of_nat (Z.to_nat n)) at 3 by lia.
    induction (Z.to_nat n) as [|k [IH1 IH2]]; simpl.
    + split; [assumption | lia].
    + destruct (next_day_spec _ IH1) as [H1 H2]. split; [assumption | lia].
  - replace n with (- Z.of_nat (Z.to_nat (- n))) at 3 by lia.
    induction (Z.to_nat (- n)) as [|k [IH1 IH2]]; simpl.
    + split; [assumption | lia].
    + destruct (prev_day_spec _ IH1) as [H1 H2]. split; [assumption | lia].
Qed.

(** A day number within [1 .. MAXORDINAL] belongs to a year the type has. *)
Lemma ordinal_range_year d :
  in_year d -> 0 < toordinal d <= MAXORDINAL ->
  MINYEAR <= year d <= MAXYEAR.
Proof.
  intros [Hm Hd] Ho. unfold toordinal, ymd2ord, MINYEAR, MAXYEAR in *.
  pose proof (days_before_month_nonneg (year d) (month d)).
  pose proof (year_end (year d) (month d) Hm).
  split.
  - destruct (Z.le_gt_cases 1 (year d)) as [|Hlt]; [assumption|].
    pose proof (days_before_year_mono (year d + 1) 1 ltac:(lia)) as Hmono.
    change (days_before_year 1) with 0 in Hmono. lia.
  - destruct (Z.le_gt_cases (year d) 9999) as [|Hgt]; [assumption|].
    pose proof (days_before_year_mono 10000 (year d) ltac:(lia)) as Hmono.
    change (days_before_year 10000) with 3652059 in Hmono.
    unfold MAXORDINAL in Ho. lia.
Qed.

Lemma valid_ordinal_range d : valid d -> 0 < toordinal d <= MAXORDINAL.
Proof.
  intros Hv. pose proof (valid_in_year _ Hv) as [Hm Hd].
  pose proof (valid_year _ Hv) as Hy. unfold MINYEAR, MAXYEAR in Hy.
  unfold toordinal, ymd2ord, MAXORDINAL.
  pose proof (days_before_month_nonneg (year d) (month d)).
  pose proof (year_end (year d) (month d) Hm).
  pose proof (days_before_year_mono 1 (year d) ltac:(lia)) as H1.
  pose proof (days_before_year_mono (year d + 1) 10000 ltac:(lia)) as H2.
  change (days_before_year 1) with 0 in H1.
  change (days_before_year 10000) with 3652059 in H2. lia.
Qed.

(** [d + timedelta(days=n)] succeeds exactly when the day number it asks
    for exists, and then it is the date with that day number. *)
Lemma add_days_Some d n :
  valid d -> 0 < toordinal d + n <= MAXORDINAL ->
  exists d', add_days d n = Some d' /\ valid d'
             /\ toordinal d' = toordinal d + n.
Proof.
  intros Hv Ho. pose proof (valid_ordinal_range _ Hv) as Hr.
  unfold add_days. unfold MAXORDINAL in *.
  destruct (Z.ltb_spec 999999999 (Z.abs n)); [lia|].
  cbv zeta.
  destruct (Z.ltb_spec 0 (toordinal d + n)); [|lia].
  destruct (Z.leb_spec (toordinal d + n) 3652059); [|lia]. simpl.
  destruct (shift_spec d n (valid_in_year _ Hv)) as [Hs1 Hs2].
  exists (shift d n). split; [reflexivity|]. split; [|assumption].
  apply valid_intro; [assumption|].
  apply ordinal_range_year; [assumption|]. unfold MAXORDINAL. lia.
Qed.

Lemma add_days_None d n :
  ~ (0 < toordinal d + n <= MAXORDINAL) -> add_days d n = None.
Proof.
  intros Ho. unfold add_days.
  destruct (Z.ltb_spec 999999999 (Z.abs n)); [reflexivity|]. cbv zeta.
  destruct (Z.ltb_spec 0 (toordinal d + n)); [|reflexivity].
  destruct (Z.leb_spec (toordinal d + n) MAXORDINAL); [lia|reflexivity].
Qed.
End CalendarFacts.

(** ** ISO text reads back *)

Section IsoFacts.
Import Iso.

Lemma append_cons c (s r : string) :
  (String c s ++ r)%string = String c (s ++ r)%string.
Proof. reflexivity. Qed.

Lemma append_nil_l (s : string) : (EmptyString ++ s)%string = s.
Proof. reflexivity. Qed.

Lemma append_nil_r (s : string) : (s ++ EmptyString)%string = s.
Proof.
  induction s as [|x s IH]; [reflexivity|]. rewrite append_cons.
  f_equal. exact IH.
Qed.

Lemma string_app_assoc (a b c : string) :
  ((a ++ b) ++ c = a ++ (b ++ c))%string.
Proof.
  induction a as [|x a IH]; [reflexivity|]. rewrite !append_cons.
  f_equal. exact IH.
Qed.

Lemma digit_val_char k : 0 <= k <= 9 -> digit_val (digit_char k) = Some k.
Proof.
  intros Hk.
  assert (H : k = 0 \/ k = 1 \/ k = 2 \/ k = 3 \/ k = 4 \/ k = 5 \/ k = 6
              \/ k = 7 \/ k = 8 \/ k = 9) by lia.
  repeat (destruct H as [H | H]); subst k; reflexivity.
Qed.

Lemma digits_fmt w : forall acc n rest,
  digits w acc (fmt w n ++ rest)
  = Some (acc * 10 ^ Z.of_nat w + n mod 10 ^ Z.of_nat w, rest).
Proof.
  induction w as [|w IH]; intros acc n rest.
  - simpl. rewrite append_nil_l, Z.mod_1_r. do 2 f_equal. lia.
  - cbn [fmt]. rewrite append_cons. cbn [digits].
    rewrite digit_val_char
      by (pose proof (Z.mod_pos_bound (n / 10 ^ Z.of_nat w) 10); lia).
    rewrite IH. do 2 f_equal.
    rewrite Nat2Z.inj_succ, Z.pow_succ_r by lia.
    rewrite (Z.mul_comm 10 (10 ^ Z.of_nat w)).
    rewrite Z.rem_mul_r by lia. lia.
Qed.

Lemma digits_fmt_small w n rest :
  0 <= n < 10 ^ Z.of_nat w ->
  digits w 0 (fmt w n ++ rest) = Some (n, rest).
Proof.
  intros Hn. rewrite digits_fmt, Z.mod_small by assumption. reflexivity.
Qed.

Lemma parse_date_isoformat d rest :
  Date.valid d -> parse_date (date_isoformat d ++ rest) = Some (d, rest).
Proof.
  intros Hv. pose proof (valid_year _ Hv) as Hy.
  pose proof (valid_in_year _ Hv) as [Hm Hd].
  pose proof (days_in_month_bounds (Date.year d) (Date.month d) Hm).
  unfold Date.MINYEAR, Date.MAXYEAR in Hy.
  unfold parse_date, date_isoformat.
  rewrite !string_app_assoc.
  rewrite digits_fmt_small by (change (10 ^ Z.of_nat 4) with 10000; lia).
  rewrite append_cons, append_nil_l. cbn [expect].
  change (Ascii.eqb "-" "-") with true. cbv iota.
  rewrite digits_fmt_small by (change (10 ^ Z.of_nat 2) with 100; lia).
  rewrite append_cons, append_nil_l. cbn [expect].
  change (Ascii.eqb "-" "-") with true. cbv iota.
  rewrite digits_fmt_small by (change (10 ^ Z.of_nat 2) with 100; lia).
  cbv zeta. destruct d as [y m dd]. cbn [Date.year Date.month Date.day].
  unfold Date.valid in Hv. rewrite Hv. reflexivity.
Qed.

Lemma date_roundtrip d :
  Date.valid d -> read_date (date_isoformat d) = Some d.
Proof.
  intros Hv. unfold read_date.
  pose proof (parse_date_isoformat d EmptyString Hv) as H.
  rewrite append_nil_r in H. rewrite H. reflexivity.
Qed.

Lemma datetime_roundtrip x :
  DateTime.valid x -> read_datetime (datetime_isoformat x) = Some x.
Proof.
  intros Hv. pose proof Hv as Hv'.
  unfold DateTime.valid, DateTime.validb in Hv'.
  rewrite !andb_true_iff in Hv'.
  destruct Hv' as [[[[[[[[Hd Hh1] Hh2] Hm1] Hm2] Hs1] Hs2] Hu1] Hu2].
  apply Z.leb_le in Hh1, Hm1, Hs1, Hu1. apply Z.ltb_lt in Hh2, Hm2, Hs2, Hu2.
  unfold read_datetime, datetime_isoformat.
  rewrite parse_date_isoformat by exact Hd.
  rewrite append_cons, append_nil_l.
  rewrite digits_fmt_small by (change (10 ^ Z.of_nat 2) with 100; lia).
  rewrite append_cons, append_nil_l. cbn [expect].
  change (Ascii.eqb ":" ":") with true. cbv iota.
  rewrite digits_fmt_small by (change (10 ^ Z.of_nat 2) with 100; lia).
  rewrite append_cons, append_nil_l. cbn [expect].
  change (Ascii.eqb ":" ":") with true. cbv iota.
  rewrite digits_fmt_small by (change (10 ^ Z.of_nat 2) with 100; lia).
  cbv zeta.
  destruct (Z.eqb_spec (DateTime.microsecond x) 0) as [Hz | Hnz].
  - destruct x as [d h mi se us].
    cbn [DateTime.microsecond DateTime.date DateTime.hour DateTime.minute
         DateTime.second] in *.
    subst us. unfold DateTime.valid in Hv. rewrite Hv. reflexivity.
  - rewrite append_cons, append_nil_l.
    change (Ascii.eqb "." ".") with true. cbv iota.
    pose proof (digits_fmt_small 6 (DateTime.microsecond x) EmptyString)
      as H.
    rewrite append_nil_r in H.
    rewrite H by (change (10 ^ Z.of_nat 6) with 1000000; lia). clear H.
    destruct x as [d h mi se us].
    cbn [DateTime.microsecond DateTime.date DateTime.hour DateTime.minute
         DateTime.second] in *.
    unfold DateTime.valid in Hv. rewrite Hv. reflexivity.
Qed.

Lemma priority_roundtrip p : Priority.of_name (Priority.name p) = Some p.
Proof. destruct p; reflexivity. Qed.

Lemma canonical_reads_isoformat : reads_isoformat canonical_library.
Proof.
  split; intros v Hv; cbn [canonical_library lib_date_fromisoformat
                            lib_datetime_fromisoformat];
    [rewrite (date_roundtrip _ Hv) | rewrite (datetime_roundtrip _ Hv)];
    reflexivity.
Qed.
End IsoFacts.

(** ** Running the methods *)

Section MonadFacts.

Lemma bind_run {A B : Type} (m : M A) (f : A -> M B) (s : TaskManager) :
  (m ≫= f) s
  = match m s with
    | (Ok a, s') => f a s'
    | (Raise e, s') => (Raise e, s')
    end.
Proof. reflexivity. Qed.

Lemma same_memory_refl s : same_memory s s.
Proof. repeat split. Qed.

Lemma same_memory_trans s1 s2 s3 :
  same_memory s1 s2 -> same_memory s2 s3 -> same_memory s1 s3.
Proof. unfold same_memory. intros (?&?&?) (?&?&?). repeat split; congruence. Qed.

Lemma same_memory_with_db d s : same_memory s (with_db d s).
Proof. repeat split. Qed.

(** A loop keeps what every round keeps. *)
Lemma for_each_same_memory {A : Type} (body : A -> M unit) (l : list A) :
  (forall x s, same_memory s (body x s).2) ->
  forall s, same_memory s (for_each body l s).2.
Proof.
  intros Hb. induction l as [|x l IH]; intros s; cbn [for_each].
  - apply same_memory_refl.
  - rewrite bind_run. specialize (Hb x s).
    destruct (body x s) as [[[]|e] s1]; cbn [snd] in *; [|exact Hb].
    eapply same_memory_trans; [exact Hb | apply IH].
Qed.

Lemma insert_task_row_same_memory r s :
  same_memory s (insert_task_row r s).2.
Proof.
  unfold insert_task_row. destruct (negb _); [apply same_memory_refl|].
  destruct (has_id _ _); cbn [snd];
    [apply same_memory_refl | apply same_memory_with_db].
Qed.

Lemma insert_member_row_same_memory r s :
  same_memory s (insert_member_row r s).2.
Proof.
  unfold insert_member_row. destruct (negb _); [apply same_memory_refl|].
  destruct (has_name _ _); cbn [snd];
    [apply same_memory_refl | apply same_memory_with_db].
Qed.

Lemma deref_run r s :
  deref r s = match heap s !! r with
              | Some t => (Ok t, s)
              | None => (Raise ReferenceError, s)
              end.
Proof. reflexivity. Qed.

(** [save_data] writes to the database only, whether it returns or raises. *)
Lemma save_data_same_memory s : same_memory s (save_data s).2.
Proof.
  unfold save_data. rewrite bind_run. cbn [modify].
  rewrite bind_run. cbn [gets].
  rewrite bind_run.
  set (s0 := with_db (mk_database [] []) s).
  assert (H0 : same_memory s s0) by apply same_memory_with_db.
  pose proof (for_each_same_memory
                (fun r => t ← deref r; insert_task_row (task_to_row t))
                (tasks s0)) as H1.
  specialize (H1 ltac:(intros x s'; cbv beta; rewrite bind_run, deref_run;
                       destruct (heap s' !! x);
                       [apply insert_task_row_same_memory
                       |apply same_memory_refl]) s0).
  destruct (for_each _ (tasks s0) s0) as [[[]|e] s1]; cbn [snd] in *.
  - rewrite bind_run. cbn [gets].
    eapply same_memory_trans; [exact H0|].
    eapply same_memory_trans; [exact H1|].
    apply for_each_same_memory. intros. apply insert_member_row_same_memory.
  - eapply same_memory_trans; [exact H0 | exact H1].
Qed.
End MonadFacts.

(** ** Dictionaries and references *)

Section DictFacts.
Context {V : Type}.

Lemma dict_mem_cons k k' (v : V) d :
  dict_mem k ((k', v) :: d) = String.eqb k k' || dict_mem k d.
Proof. unfold dict_mem. cbn [dict_get]. destruct (String.eqb k k'); reflexivity. Qed.

Lemma dict_set_fresh k (v : V) d :
  dict_mem k d = false -> dict_set k v d = d ++ [(k, v)].
Proof.
  induction d as [|[k' v'] d IH]; [reflexivity|].
  rewrite dict_mem_cons. intros [H1 H2]%orb_false_iff.
  cbn [dict_set]. rewrite H1, IH by assumption. reflexivity.
Qed.

Lemma dict_get_mem k (d : list (string * V)) :
  dict_mem k d = true <-> exists v, dict_get k d = Some v.
Proof.
  unfold dict_mem. destruct (dict_get k d) as [v|]; split;
    [eauto | reflexivity | discriminate | intros [? [=]]].
Qed.

Lemma dict_keys_alter (f : V -> V) k d :
  dict_keys (dict_alter f k d) = dict_keys d.
Proof.
  unfold dict_keys.
  induction d as [|[k' v] d IH]; [reflexivity|]. cbn [dict_alter].
  destruct (String.eqb k k'); cbn [map fst]; congruence.
Qed.

Lemma dict_mem_alter (f : V -> V) k k0 d :
  dict_mem k0 (dict_alter f k d) = dict_mem k0 d.
Proof.
  induction d as [|[k' v] d IH]; [reflexivity|]. cbn [dict_alter].
  destruct (String.eqb k k'); rewrite !dict_mem_cons; congruence.
Qed.
End DictFacts.

Section ResolveFacts.

Lemma resolve_cons h r l :
  resolve h (r :: l)
  = match h !! r, resolve h l with
    | Some t, Some ts => Some (t :: ts)
    | _, _ => None
    end.
Proof. reflexivity. Qed.

Lemma resolve_app h l1 l2 ts1 ts2 :
  resolve h l1 = Some ts1 -> resolve h l2 = Some ts2 ->
  resolve h (l1 ++ l2) = Some (ts1 ++ ts2).
Proof.
  revert ts1. induction l1 as [|r l1 IH]; intros ts1.
  - intros [= <-] H2. exact H2.
  - rewrite <- app_comm_cons, !resolve_cons.
    destruct (h !! r) as [t|]; [|discriminate].
    destruct (resolve h l1) as [ts|]; [|discriminate].
    intros [= <-] H2. rewrite (IH ts eq_refl H2). reflexivity.
Qed.

Lemma resolve_length h l ts : resolve h l = Some ts -> length ts = length l.
Proof.
  revert ts. induction l as [|r l IH]; intros ts.
  - intros [= <-]. reflexivity.
  - rewrite resolve_cons. destruct (h !! r); [|discriminate].
    destruct (resolve h l) as [ts'|]; [|discriminate].
    intros [= <-]. cbn [length]. f_equal. apply IH. reflexivity.
Qed.

(** New objects do not disturb the references that exist. *)
Lemma resolve_alloc h t l ts :
  resolve h l = Some ts -> resolve (h ++ [t]) l = Some ts.
Proof.
  revert ts. induction l as [|r l IH]; intros ts; [trivial|].
  rewrite !resolve_cons. destruct (h !! r) as [t0|] eqn:Hr; [|discriminate].
  destruct (resolve h l) as [ts'|]; [|discriminate]. intros [= <-].
  rewrite (lookup_app_l_Some _ _ _ _ Hr), (IH ts' eq_refl). reflexivity.
Qed.

Lemma resolve_fresh h t : resolve (h ++ [t]) [length h] = Some [t].
Proof.
  rewrite resolve_cons. rewrite list_lookup_middle by reflexivity.
  reflexivity.
Qed.
End ResolveFacts.

(** ** Task creation *)

Section AddTaskFacts.
Variables (title description : string) (deadline : Date.t)
  (priority : Priority) (assigned_to : string) (now : DateTime.t).

(** One call of [add_task], step by step. *)
Lemma add_task_run s ts :
  resolve (heap s) (tasks s) = Some ts ->
  let task := length (heap s) in
  let t := Task.mk (max_default0 (map Task.id ts) + 1) title description
             deadline priority assigned_to "Not Started" now in
  let s1 := with_tasks (tasks s ++ [task]) (with_heap (heap s ++ [t]) s) in
  add_task title description deadline priority assigned_to now s
  = if dict_mem assigned_to (team_members s)
    then
      let s2 :=
        with_team_members
          (dict_alter (TeamMember.assign task (Priority.value priority))
             assigned_to (team_members s)) s1 in
      match save_data s2 with
      | (Ok _, s3) => (Ok task, s3)
      | (Raise e, s3) => (Raise e, s3)
      end
    else
      (Raise (ValueError ("Team member " ++ assigned_to ++ " does not exist")),
       s1).
Proof.
  intros Hts. cbv zeta. unfold add_task.
  rewrite !bind_run. cbn [gets]. unfold resolve_all at 1. rewrite Hts.
  rewrite bind_run. cbn [new_task].
  rewrite bind_run. cbn [modify].
  rewrite bind_run. cbn [gets with_tasks with_heap team_members heap tasks].
  destruct (dict_mem assigned_to (team_members s)); cbn [negb].
  - rewrite bind_run. cbn [modify]. rewrite bind_run.
    cbn [with_team_members with_tasks with_heap team_members heap tasks db].
    destruct (save_data _) as [[[]|e] s3]; reflexivity.
  - reflexivity.
Qed.
End AddTaskFacts.

(** C1 (the code differs).  When [assigned_to] names no registered
    member, [add_task] does raise the [ValueError] and leaves every
    member (task list and workload) and the database as they were, but
    the task it built has already been appended to the global task list,
    which is therefore not unchanged. *)
Theorem add_task_unknown_member_keeps_task
  (title description : string) (deadline : Date.t) (priority : Priority)
  (assigned_to : string) (now : DateTime.t) (s : TaskManager)
  (ts : list Task.t) :
  resolve (heap s) (tasks s) = Some ts ->
  ~ registered assigned_to s ->
  let call := add_task title description deadline priority assigned_to now in
  outcome call s
  = Raise (ValueError ("Team member " ++ assigned_to ++ " does not exist"))
  /\ team_members (after call s) = team_members s
  /\ db (after call s) = db s
  /\ tasks (after call s) = tasks s ++ [length (heap s)]
  /\ tasks (after call s) <> tasks s
  /\ resolve (heap (after call s)) (tasks (after call s))
     = Some (ts ++ [Task.mk (max_default0 (map Task.id ts) + 1) title
                      description deadline priority assigned_to
                      "Not Started" now]).
Proof.
  intros Hts Hreg. cbv zeta. unfold outcome, after.
  rewrite (add_task_run _ _ _ _ _ _ s ts Hts). cbv zeta.
  unfold registered in Hreg.
  destruct (dict_mem assigned_to (team_members s)); [congruence|].
  cbn [fst snd with_tasks with_heap team_members db tasks heap].
  repeat split.
  - intros H. apply (f_equal (@length _)) in H.
    rewrite length_app in H. cbn [length] in H. lia.
  - apply resolve_app; [apply resolve_alloc; exact Hts | apply resolve_fresh].
Qed.

Lemma add_task_unknown_member_keeps_task_witness :
  outcome (add_task "Fix bug" "Crash at start" jan10 LOW "Carol" clock) team
  = Raise (ValueError "Team member Carol does not exist")
  /\ tasks (after (add_task "Fix bug" "Crash at start" jan10 LOW "Carol" clock)
             team) = [0%nat]
  /\ tasks team = [].
Proof.
  pose proof (add_task_unknown_member_keeps_task "Fix bug" "Crash at start"
                jan10 LOW "Carol" clock team [] eq_refl
                ltac:(vm_compute; discriminate)) as H.
  cbv zeta in H. destruct H as (H1 & _ & _ & H2 & _).
  split; [exact H1|]. split; [exact H2 | reflexivity].
Defined.

(** ** Allocation without members *)

(** C5 (the code differs).  With no registered member, [allocate_task]
    does not complete: [min] of the empty collection raises [ValueError],
    before anything is changed. *)
Theorem allocate_task_no_members_raises (task : ref) (s : TaskManager) :
  team_members s = [] ->
  allocate_task task s
  = (Raise (ValueError "min() arg is an empty sequence"), s).
Proof.
  intros Hm. unfold allocate_task. rewrite bind_run. cbn [gets].
  rewrite Hm. reflexivity.
Qed.

Lemma allocate_task_no_members_raises_witness :
  allocate_task 0%nat fresh
  = (Raise (ValueError "min() arg is an empty sequence"), fresh).
Proof. apply allocate_task_no_members_raises. reflexivity. Defined.

(** ** Registration *)

(** C10.  [add_team_member] with a new name appends the member
    [TeamMember(name, email)], with workload 0 and no tasks, after the
    registered ones and touches neither the tasks nor the other members;
    with a registered name it raises the "already exists" [ValueError]
    and changes nothing. *)
Theorem add_team_member_spec (name email : string) (s : TaskManager) :
  (~ registered name s ->
   team_members (after (add_team_member name email) s)
   = team_members s ++ [(name, TeamMember.mk name email [] 0)]
   /\ heap (after (add_team_member name email) s) = heap s
   /\ tasks (after (add_team_member name email) s) = tasks s)
  /\ (registered name s ->
      add_team_member name email s
      = (Raise (ValueError ("Team member " ++ name ++ " already exists")), s)).
Proof.
  unfold registered, after, add_team_member. rewrite bind_run. cbn [gets].
  destruct (dict_mem name (team_members s)) eqn:Hmem; cbn [negb].
  - split; [congruence | reflexivity].
  - split; [intros _ | discriminate].
    rewrite bind_run. cbn [modify].
    rewrite dict_set_fresh by exact Hmem.
    destruct (save_data_same_memory
                (with_team_members
                   (team_members s ++ [(name, TeamMember.mk name email [] 0)])
                   s)) as (Hh & Ht & Hm).
    rewrite Hh, Ht, Hm. repeat split.
Qed.

Lemma add_team_member_spec_witness :
  team_members (after (add_team_member "Carol" "carol@example.org") team)
  = team_members team
    ++ [("Carol", TeamMember.mk "Carol" "carol@example.org" [] 0)]
  /\ add_team_member "Bob" "robert@example.org" team
     = (Raise (ValueError "Team member Bob already exists"), team).
Proof.
  split.
  - apply (proj1 (add_team_member_spec "Carol" "carol@example.org" team)).
    vm_compute. discriminate.
  - apply (proj2 (add_team_member_spec "Bob" "robert@example.org" team)).
    vm_compute. reflexivity.
Defined.

(** ** The workload invariant *)

Section WorkloadFacts.

Lemma priority_sum_app a b :
  priority_sum (a ++ b) = priority_sum a + priority_sum b.
Proof.
  unfold priority_sum. induction a as [|t a IH]; cbn [app map fold_right];
    [lia | rewrite IH; lia].
Qed.

(** Replacing an object by one of the same priority keeps every sum. *)
Lemma resolve_insert h r t t' l ts :
  h !! r = Some t -> Task.priority t' = Task.priority t ->
  resolve h l = Some ts ->
  exists ts', resolve (<[r := t']> h) l = Some ts'
              /\ priority_sum ts' = priority_sum ts.
Proof.
  intros Hr Hp. revert ts. induction l as [|r0 l IH]; intros ts.
  - intros [= <-]. exists []. split; reflexivity.
  - rewrite !resolve_cons. destruct (h !! r0) as [t0|] eqn:Hr0; [|discriminate].
    destruct (resolve h l) as [ts0|]; [|discriminate]. intros [= <-].
    destruct (IH ts0 eq_refl) as (ts1 & H1 & H2). rewrite H1.
    destruct (decide (r = r0)) as [<- | Hne].
    + rewrite list_lookup_insert_eq by (eapply lookup_lt_Some; exact Hr).
      eexists. split; [reflexivity|].
      unfold priority_sum in *. cbn [map fold_right].
      assert (t0 = t) by congruence. subst t0. rewrite Hp, H2. reflexivity.
    + rewrite list_lookup_insert_ne by exact Hne. rewrite Hr0.
      eexists. split; [reflexivity|].
      unfold priority_sum in *. cbn [map fold_right]. rewrite H2. reflexivity.
Qed.

Lemma member_load_alloc h t m w :
  member_load h m = Some w -> member_load (h ++ [t]) m = Some w.
Proof.
  unfold member_load. destruct (resolve h _) as [ts|] eqn:Hts; [|discriminate].
  rewrite (resolve_alloc _ t _ _ Hts). trivial.
Qed.

Lemma member_load_insert h r t t' m w :
  h !! r = Some t -> Task.priority t' = Task.priority t ->
  member_load h m = Some w -> member_load (<[r := t']> h) m = Some w.
Proof.
  intros Hr Hp. unfold member_load.
  destruct (resolve h _) as [ts|] eqn:Hts; [|discriminate].
  destruct (resolve_insert h r t t' _ ts Hr Hp Hts) as (ts' & -> & ->).
  trivial.
Qed.

(** A member that receives task [r] of weight [w]. *)
Lemma member_load_assign h r t m w :
  h !! r = Some t ->
  member_load h m = Some w ->
  member_load h (TeamMember.assign r (Priority.value (Task.priority t)) m)
  = Some (w + Priority.value (Task.priority t)).
Proof.
  intros Hr. unfold member_load, TeamMember.assign. cbn [TeamMember.tasks].
  destruct (resolve h _) as [ts|] eqn:Hts; [|discriminate]. intros [= <-].
  assert (H1 : resolve h [r] = Some [t]) by (rewrite resolve_cons, Hr; reflexivity).
  rewrite (resolve_app _ _ _ _ _ Hts H1), priority_sum_app.
  unfold priority_sum at 2. cbn [map fold_right]. do 2 f_equal. lia.
Qed.

Lemma Forall_dict_alter {V : Type} (P : string * V -> Prop) f k d :
  (forall k' v, P (k', v) -> P (k', f v)) ->
  Forall P d -> Forall P (dict_alter f k d).
Proof.
  intros Hf. induction 1 as [|[k' v] d Hx Hd IH]; cbn [dict_alter];
    [constructor|].
  destruct (String.eqb k k'); constructor; auto.
Qed.

Lemma add_task_dangling title description deadline priority assigned_to now s :
  resolve (heap s) (tasks s) = None ->
  add_task title description deadline priority assigned_to now s
  = (Raise ReferenceError, s).
Proof.
  intros Hts. unfold add_task. rewrite !bind_run. cbn [gets].
  unfold resolve_all at 1. rewrite Hts. reflexivity.
Qed.

Lemma workload_consistent_same_memory s s' :
  same_memory s s' -> workload_consistent s -> workload_consistent s'.
Proof.
  unfold workload_consistent. intros (Hh & _ & Hm). rewrite Hh, Hm. trivial.
Qed.

Lemma add_task_consistent title description deadline priority assigned_to
  now s :
  workload_consistent s ->
  workload_consistent
    (after (add_task title description deadline priority assigned_to now) s).
Proof.
  intros Hc. unfold after.
  destruct (resolve (heap s) (tasks s)) as [ts|] eqn:Hts.
  2:{ rewrite add_task_dangling by exact Hts. exact Hc. }
  rewrite (add_task_run _ _ _ _ _ _ s ts Hts). cbv zeta.
  set (t := Task.mk _ _ _ _ _ _ _ _).
  assert (Hc1 : Forall (fun km => member_load (heap s ++ [t]) km.2
                                   = Some (TeamMember.workload km.2))
                  (team_members s)).
  { eapply Forall_impl; [exact Hc|]. intros km. apply member_load_alloc. }
  destruct (dict_mem assigned_to (team_members s)).
  - match goal with |- context [save_data ?x] =>
      pose proof (save_data_same_memory x) as Hsame;
      destruct (save_data x) as [[[]|e] s3] end;
      cbn [snd] in *;
      (eapply workload_consistent_same_memory; [exact Hsame|]);
      unfold workload_consistent;
      cbn [with_team_members with_tasks with_heap heap team_members];
      (apply Forall_dict_alter; [|exact Hc1]);
      intros k' m Hm; cbn [snd] in *;
      change (Priority.value priority)
        with (Priority.value (Task.priority t));
      (rewrite (member_load_assign _ _ t _ _ (list_lookup_middle _ _ _ _ eq_refl) Hm));
      reflexivity.
  - exact Hc1.
Qed.

Lemma allocate_task_run task s :
  allocate_task task s
  = match min_workload (dict_values (team_members s)) with
    | None => (Raise (ValueError "min() arg is an empty sequence"), s)
    | Some (i, team_member) =>
        match heap s !! task with
        | None => (Raise ReferenceError, s)
        | Some t =>
            save_data
              (with_team_members
                 (alter (fun km =>
                           (km.1, TeamMember.assign task
                                    (Priority.value (Task.priority t)) km.2))
                    i (team_members s))
                 (with_heap
                    (<[task := Task.set_assigned_to t
                                 (TeamMember.name team_member)]> (heap s)) s))
        end
    end.
Proof.
  unfold allocate_task. rewrite bind_run. cbn [gets].
  destruct (min_workload _) as [[i m]|]; [|reflexivity].
  rewrite bind_run, deref_run. destruct (heap s !! task); [|reflexivity].
  rewrite bind_run. cbn [modify]. rewrite bind_run. cbn [modify].
  reflexivity.
Qed.

Lemma allocate_task_consistent task s :
  workload_consistent s -> workload_consistent (after (allocate_task task) s).
Proof.
  intros Hc. unfold after. rewrite allocate_task_run.
  destruct (min_workload _) as [[i m]|]; [|exact Hc].
  destruct (heap s !! task) as [t|] eqn:Ht; [|exact Hc].
  match goal with |- context [save_data ?x] =>
    eapply workload_consistent_same_memory;
      [exact (save_data_same_memory x)|] end.
  unfold workload_consistent.
  cbn [with_team_members with_heap heap team_members].
  set (t' := Task.set_assigned_to t (TeamMember.name m)).
  assert (Ht' : <[task := t']> (heap s) !! task = Some t').
  { apply list_lookup_insert_eq. eapply lookup_lt_Some. exact Ht. }
  apply Forall_alter.
  - eapply Forall_impl; [exact Hc|]. intros km.
    apply (member_load_insert _ _ t t'); [exact Ht | reflexivity].
  - intros [k m0] _ Hm0. cbn [fst snd] in *.
    exact (member_load_assign _ _ t' _ _ Ht' Hm0).
Qed.
End WorkloadFacts.

(** C2.  Every sequence of [add_task] and [allocate_task] calls, each
    returning or raising, keeps the invariant that the workload of every
    member is the sum of the priority values over its task list. *)
Theorem workload_consistent_run_ops (ops : list assign_op) (s : TaskManager) :
  workload_consistent s -> workload_consistent (run_ops ops s).
Proof.
  revert s. induction ops as [|o ops IH]; intros s Hc; [exact Hc|].
  cbn [run_ops fold_left]. apply IH. destruct o as [a | r]; cbn [run_op].
  - apply add_task_consistent. exact Hc.
  - apply allocate_task_consistent. exact Hc.
Qed.

Lemma workload_consistent_run_ops_witness :
  workload_consistent
    (run_ops [OpAddTask (mk_args "Plan" "Sprint" jan10 MEDIUM "Alice" clock);
              OpAllocateTask 0%nat;
              OpAddTask (mk_args "Lost" "Nobody" jan10 HIGH "Carol" clock);
              OpAllocateTask 1%nat] team_one_task).
Proof.
  apply workload_consistent_run_ops. repeat constructor.
Defined.

(** ** Allocation by workload *)

Section AllocateFacts.

Lemma min_scan_first_min l : forall pre best,
  first_min pre best.1 best.2 ->
  first_min (pre ++ l) (min_scan best (length pre) l).1
    (min_scan best (length pre) l).2.
Proof.
  induction l as [|x l IH]; intros pre [j m] Hb; cbn [min_scan].
  - rewrite app_nil_r. exact Hb.
  - replace (pre ++ x :: l) with ((pre ++ [x]) ++ l)
      by (rewrite <- app_assoc; reflexivity).
    replace (S (length pre)) with (length (pre ++ [x]))
      by (rewrite length_app; cbn [length]; lia).
    destruct Hb as [Hj Hmin]. cbn [fst snd] in *.
    pose proof (lookup_lt_Some _ _ _ Hj) as Hlt.
    destruct (Z.ltb_spec (TeamMember.workload x) (TeamMember.workload m))
      as [Hx | Hx]; apply IH; cbn [fst snd]; split.
    + apply list_lookup_middle. reflexivity.
    + intros k m' Hk. destruct (decide (k < length pre)%nat) as [Hin | Hout].
      * rewrite lookup_app_l in Hk by exact Hin.
        destruct (Hmin k m' Hk). lia.
      * pose proof (lookup_lt_Some _ _ _ Hk) as Hk'.
        rewrite length_app in Hk'. cbn [length] in Hk'.
        assert (k = length pre) by lia. subst k.
        rewrite list_lookup_middle in Hk by reflexivity.
        injection Hk as <-. lia.
    + rewrite lookup_app_l by exact Hlt. exact Hj.
    + intros k m' Hk. destruct (decide (k < length pre)%nat) as [Hin | Hout].
      * rewrite lookup_app_l in Hk by exact Hin. apply Hmin. exact Hk.
      * pose proof (lookup_lt_Some _ _ _ Hk) as Hk'.
        rewrite length_app in Hk'. cbn [length] in Hk'.
        assert (k = length pre) by lia. subst k.
        rewrite list_lookup_middle in Hk by reflexivity.
        injection Hk as <-. lia.
Qed.

(** [min] on a non-empty collection returns the first least member. *)
Lemma min_workload_first_min l :
  l <> [] -> exists j m, min_workload l = Some (j, m) /\ first_min l j m.
Proof.
  destruct l as [|m0 l]; [congruence|]. intros _. cbn [min_workload].
  pose proof (min_scan_first_min l [m0] (O, m0)) as H.
  cbn [fst snd length app] in H.
  destruct (min_scan (O, m0) 1 l) as [j m] eqn:E. cbn [fst snd] in H.
  exists j, m. split; [reflexivity|]. apply H. split; [reflexivity|].
  intros [|k] m' Hk; [injection Hk as <-; lia | discriminate].
Qed.
End AllocateFacts.

(** C6.  With at least one member registered, [allocate_task] takes the
    first member (in registration order) among those of least workload,
    writes that member's name into the task's [assigned_to] (nothing else
    of the task changes), appends the task to that member's list and adds
    the task's priority value to that member's workload; the other members
    and the global task list stay as they are. *)
Theorem allocate_task_spec (task : ref) (t : Task.t) (s : TaskManager) :
  team_members s <> [] ->
  heap s !! task = Some t ->
  exists (i : nat) (k : string) (m : TeamMember.t),
    team_members s !! i = Some (k, m)
    /\ (forall j k' m', team_members s !! j = Some (k', m') ->
          TeamMember.workload m <= TeamMember.workload m'
          /\ (TeamMember.workload m' = TeamMember.workload m -> (i <= j)%nat))
    /\ heap (after (allocate_task task) s)
       = <[task := Task.mk (Task.id t) (Task.title t) (Task.description t)
                     (Task.deadline t) (Task.priority t) (TeamMember.name m)
                     (Task.status t) (Task.created_at t)]> (heap s)
    /\ team_members (after (allocate_task task) s)
       = <[i := (k, TeamMember.mk (TeamMember.name m) (TeamMember.email m)
                      (TeamMember.tasks m ++ [task])
                      (TeamMember.workload m
                       + Priority.value (Task.priority t)))]> (team_members s)
    /\ tasks (after (allocate_task task) s) = tasks s.
Proof.
  intros Hne Ht. unfold after. rewrite allocate_task_run, Ht.
  destruct (min_workload_first_min (dict_values (team_members s)))
    as (i & m & Hmin & Hi & Hfirst).
  { unfold dict_values. destruct (team_members s); [congruence|discriminate]. }
  rewrite Hmin. unfold dict_values in Hi, Hfirst.
  rewrite list_lookup_fmap in Hi.
  destruct (team_members s !! i) as [[k m0]|] eqn:Hki; [|discriminate].
  cbn [fmap option_fmap option_map snd] in Hi. injection Hi as ->.
  exists i, k, m. split; [exact Hki|]. split.
  { intros j k' m' Hj.
    destruct (Hfirst j m') as [H1 H2];
      [rewrite list_lookup_fmap, Hj; reflexivity | split; [exact H1 | lia]]. }
  match goal with |- context [save_data ?x] =>
    destruct (save_data_same_memory x) as (Hh & Htk & Hm) end.
  rewrite Hh, Htk, Hm.
  cbn [with_team_members with_heap heap team_members tasks].
  split; [reflexivity|]. split; [|reflexivity].
  rewrite list_insert_alter. apply list_alter_ext; [|reflexivity].
  intros [k0 m1] Hk0. rewrite Hki in Hk0. injection Hk0 as -> ->.
  reflexivity.
Qed.

Lemma allocate_task_spec_witness :
  tasks (after (allocate_task 0%nat) team_one_task) = tasks team_one_task.
Proof.
  destruct (allocate_task_spec 0%nat
              (Task.mk 1 "Write report" "Quarterly" jan10 HIGH "Bob"
                 "Not Started" clock)
              team_one_task ltac:(vm_compute; discriminate) eq_refl)
    as (i & k & m & _ & _ & _ & _ & H).
  exact H.
Defined.

(** ** Status update *)

Section UpdateFacts.
Variables (task_id : Z) (new_status : string).

Lemma update_loop_spec s l : forall ts,
  resolve (heap s) l = Some ts ->
  (Forall (fun t => Task.id t <> task_id) ts ->
   update_task_status_loop task_id new_status l s = (Ok tt, s))
  /\ (forall i t r,
        ts !! i = Some t -> Task.id t = task_id ->
        (forall j t', (j < i)%nat -> ts !! j = Some t' ->
                      Task.id t' <> task_id) ->
        l !! i = Some r ->
        update_task_status_loop task_id new_status l s
        = save_data
            (with_heap (<[r := Task.set_status t new_status]> (heap s)) s)).
Proof.
  induction l as [|r0 l IH]; intros ts.
  - intros [= <-]. split; [reflexivity|]. intros i t r Hi. discriminate.
  - rewrite resolve_cons. destruct (heap s !! r0) as [t0|] eqn:Hr0; [|discriminate].
    destruct (resolve (heap s) l) as [ts0|] eqn:Hts0; [|discriminate].
    intros [= <-]. destruct (IH ts0 eq_refl) as [IH1 IH2].
    cbn [update_task_status_loop]. rewrite bind_run, deref_run, Hr0.
    split.
    + intros Hall. inversion Hall as [|? ? Hne Hrest]; subst.
      destruct (Z.eqb_spec (Task.id t0) task_id); [contradiction|].
      apply IH1. exact Hrest.
    + intros [|i] t r Hi Hid Hbefore Hr.
      * injection Hi as ->. injection Hr as ->.
        rewrite (proj2 (Z.eqb_eq _ _) Hid).
        rewrite bind_run. cbn [modify]. reflexivity.
      * destruct (Z.eqb_spec (Task.id t0) task_id) as [Heq | Hne].
        { exfalso. apply (Hbefore O t0); [lia | reflexivity | exact Heq]. }
        apply (IH2 i t r); [exact Hi | exact Hid | | exact Hr].
        intros j t' Hj Hj'. apply (Hbefore (S j) t'); [lia | exact Hj'].
Qed.
End UpdateFacts.

(** C7.  [update_task_status] looks for the first task of the task list
    that carries the id.  If there is none, the call returns and the
    state is the same.  Otherwise that task object gets the new status:
    its other fields, every other object, the task list and the members
    are as before. *)
Theorem update_task_status_spec (task_id : Z) (new_status : string)
  (s : TaskManager) (ts : list Task.t) :
  resolve (heap s) (tasks s) = Some ts ->
  (Forall (fun t => Task.id t <> task_id) ts ->
   update_task_status task_id new_status s = (Ok tt, s))
  /\ (forall i t r,
        ts !! i = Some t -> Task.id t = task_id ->
        (forall j t', (j < i)%nat -> ts !! j = Some t' ->
                      Task.id t' <> task_id) ->
        tasks s !! i = Some r ->
        let s' := after (update_task_status task_id new_status) s in
        heap s'
        = <[r := Task.mk (Task.id t) (Task.title t) (Task.description t)
                   (Task.deadline t) (Task.priority t) (Task.assigned_to t)
                   new_status (Task.created_at t)]> (heap s)
        /\ tasks s' = tasks s
        /\ team_members s' = team_members s).
Proof.
  intros Hts. unfold after, update_task_status. rewrite bind_run. cbn [gets].
  destruct (update_loop_spec task_id new_status s (tasks s) ts Hts)
    as [H1 H2].
  split; [exact H1|]. intros i t r Hi Hid Hbefore Hr. cbv zeta.
  rewrite (H2 i t r Hi Hid Hbefore Hr).
  match goal with |- context [save_data ?x] =>
    destruct (save_data_same_memory x) as (Hh & Htk & Hm) end.
  rewrite Hh, Htk, Hm. repeat split.
Qed.

Lemma update_task_status_spec_witness :
  update_task_status 7 "Completed" team_one_task = (Ok tt, team_one_task)
  /\ heap (after (update_task_status 1 "Completed") team_one_task)
     = [Task.mk 1 "Write report" "Quarterly" jan10 HIGH "Bob" "Completed"
          clock].
Proof.
  pose proof (update_task_status_spec 7 "Completed" team_one_task _ eq_refl)
    as [H1 _].
  pose proof (update_task_status_spec 1 "Completed" team_one_task _ eq_refl)
    as [_ H2].
  split.
  - apply H1. repeat constructor. vm_compute. discriminate.
  - destruct (H2 O _ O eq_refl eq_refl ltac:(intros; lia) eq_refl)
      as (H & _ & _).
    exact H.
Defined.

(** ** To-do lists *)

Section SortFacts.

Lemma date_ltb_iff a b :
  Date.ltb a b = true
  <-> Date.year a < Date.year b
      \/ (Date.year a = Date.year b
          /\ (Date.month a < Date.month b
              \/ (Date.month a = Date.month b /\ Date.day a < Date.day b))).
Proof.
  unfold Date.ltb.
  repeat (rewrite orb_true_iff || rewrite andb_true_iff).
  rewrite !Z.ltb_lt, !Z.eqb_eq. reflexivity.
Qed.

Lemma date_leb_iff a b :
  Date.leb a b = true
  <-> Date.year a < Date.year b
      \/ (Date.year a = Date.year b
          /\ (Date.month a < Date.month b
              \/ (Date.month a = Date.month b /\ Date.day a <= Date.day b))).
Proof.
  unfold Date.leb, Date.eqb. rewrite orb_true_iff, date_ltb_iff.
  rewrite !andb_true_iff, !Z.eqb_eq. lia.
Qed.

Lemma date_ltb_false a b : Date.ltb a b = false <-> Date.leb b a = true.
Proof.
  rewrite <- not_true_iff_false, date_ltb_iff, date_leb_iff. lia.
Qed.

Lemma date_leb_trans a b c :
  Date.leb a b = true -> Date.leb b c = true -> Date.leb a c = true.
Proof. rewrite !date_leb_iff. lia. Qed.

(** The sort puts [a] in front of [b] only if [a] is not below [b]. *)
Lemma key_ltb_false a b :
  key_ltb (sort_key a) (sort_key b) = false <-> goes_before a b.
Proof.
  unfold key_ltb, sort_key, goes_before. cbn [fst snd].
  rewrite orb_false_iff, andb_false_iff, Z.ltb_ge, Z.eqb_neq.
  rewrite date_ltb_false.
  destruct (Date.leb (Task.deadline b) (Task.deadline a));
    intuition (try discriminate; try lia).
Qed.

Lemma key_ltb_true a b :
  key_ltb (sort_key a) (sort_key b) = true -> goes_before b a.
Proof.
  unfold key_ltb, sort_key, goes_before. cbn [fst snd].
  rewrite orb_true_iff, andb_true_iff, Z.ltb_lt, Z.eqb_eq.
  rewrite date_ltb_iff, date_leb_iff. lia.
Qed.

Lemma goes_before_trans a b c :
  goes_before a b -> goes_before b c -> goes_before a c.
Proof.
  unfold goes_before. intros [H1 | [H1 H1']] [H2 | [H2 H2']]; try lia.
  right. split; [lia|]. eapply date_leb_trans; eassumption.
Qed.

Context {A : Type} (task_of : A -> Task.t).
Let key (x : A) := sort_key (task_of x).
Let before (x y : A) := goes_before (task_of x) (task_of y).

Lemma insert_desc_perm x l : Permutation (insert_desc key x l) (x :: l).
Proof.
  induction l as [|y l IH]; cbn [insert_desc]; [reflexivity|].
  destruct (key_ltb (key x) (key y)); [|reflexivity].
  rewrite IH. apply perm_swap.
Qed.

Lemma sorted_reverse_perm l : Permutation (sorted_reverse key l) l.
Proof.
  induction l as [|x l IH]; cbn [sorted_reverse]; [reflexivity|].
  rewrite insert_desc_perm, IH. reflexivity.
Qed.

Lemma insert_desc_sorted x l :
  StronglySorted before l -> StronglySorted before (insert_desc key x l).
Proof.
  induction 1 as [|y l Hl IH Hy]; cbn [insert_desc].
  - repeat constructor.
  - destruct (key_ltb (key x) (key y)) eqn:Hxy.
    + constructor; [exact IH|].
      rewrite insert_desc_perm. constructor; [|exact Hy].
      apply key_ltb_true. exact Hxy.
    + apply key_ltb_false in Hxy. constructor; [constructor; assumption|].
      constructor; [exact Hxy|].
      eapply Forall_impl; [exact Hy|]. intros z Hz.
      eapply goes_before_trans; [exact Hxy | exact Hz].
Qed.

Lemma sorted_reverse_sorted l : StronglySorted before (sorted_reverse key l).
Proof.
  induction l as [|x l IH]; cbn [sorted_reverse];
    [constructor | apply insert_desc_sorted; exact IH].
Qed.
End SortFacts.

Section ToDoFacts.

Lemma resolve_zip h l ts :
  resolve h l = Some ts -> Forall (fun p => h !! p.1 = Some p.2) (zip l ts).
Proof.
  revert ts. induction l as [|r l IH]; intros ts.
  - intros [= <-]. constructor.
  - rewrite resolve_cons. destruct (h !! r) as [t|] eqn:Hr; [|discriminate].
    destruct (resolve h l) as [ts0|]; [|discriminate]. intros [= <-].
    constructor; [exact Hr | apply IH; reflexivity].
Qed.

Lemma resolve_pairs h ps :
  Forall (fun p => h !! p.1 = Some p.2) ps ->
  resolve h (map fst ps) = Some (map snd ps).
Proof.
  induction 1 as [|[r t] ps Hp Hps IH]; [reflexivity|].
  cbn [map fst snd] in *. rewrite resolve_cons, Hp, IH. reflexivity.
Qed.

Lemma map_fst_zip h l ts : resolve h l = Some ts -> map fst (zip l ts) = l.
Proof.
  intros H. apply resolve_length in H. revert ts H.
  induction l as [|r l IH]; intros [|t ts] H; try discriminate;
    [reflexivity|].
  cbn [zip zip_with map fst]. f_equal. apply IH. cbn [length] in H. lia.
Qed.

Lemma generate_to_do_list_run name s :
  generate_to_do_list name s
  = match dict_get name (team_members s) with
    | None => (Ok [], s)
    | Some m =>
        match resolve (heap s) (TeamMember.tasks m) with
        | None => (Raise ReferenceError, s)
        | Some ts =>
            (Ok (map fst (sorted_reverse (fun x => sort_key x.2)
                            (zip (TeamMember.tasks m) ts))), s)
        end
    end.
Proof.
  unfold generate_to_do_list. rewrite bind_run. cbn [gets].
  destruct (dict_get name (team_members s)) as [m|]; [|reflexivity].
  rewrite bind_run. unfold resolve_all.
  destruct (resolve (heap s) (TeamMember.tasks m)); reflexivity.
Qed.
End ToDoFacts.

(** C8.  For a registered member, [generate_to_do_list] returns the
    member's tasks, each as often as the member holds it, ordered so that
    every task goes before all later ones: higher priority first and,
    for equal priority, the later deadline first.  For a name that is not
    registered it returns the empty list.  The state is never changed. *)
Theorem generate_to_do_list_spec (name : string) (s : TaskManager) :
  (dict_get name (team_members s) = None ->
   generate_to_do_list name s = (Ok [], s))
  /\ (forall m ts,
        dict_get name (team_members s) = Some m ->
        resolve (heap s) (TeamMember.tasks m) = Some ts ->
        exists l ts',
          generate_to_do_list name s = (Ok l, s)
          /\ Permutation l (TeamMember.tasks m)
          /\ resolve (heap s) l = Some ts'
          /\ StronglySorted goes_before ts').
Proof.
  rewrite generate_to_do_list_run. split.
  - intros ->. reflexivity.
  - intros m ts -> Hts. rewrite Hts.
    set (ps := sorted_reverse _ _).
    exists (map fst ps), (map snd ps). split; [reflexivity|].
    assert (Hperm : Permutation ps (zip (TeamMember.tasks m) ts))
      by apply (sorted_reverse_perm snd).
    split; [|split].
    + rewrite Hperm. erewrite map_fst_zip by exact Hts. reflexivity.
    + apply resolve_pairs. rewrite Hperm. apply resolve_zip. exact Hts.
    + pose proof (sorted_reverse_sorted snd (zip (TeamMember.tasks m) ts))
        as Hs.
      fold ps in Hs. clearbody ps. clear Hperm.
      induction Hs as [|p ps Hps IH Hp]; cbn [map]; constructor;
        [exact IH | rewrite Forall_map; exact Hp].
Qed.

Lemma generate_to_do_list_spec_witness :
  generate_to_do_list "Zoe" alice_three = (Ok [], alice_three)
  /\ exists l ts',
       generate_to_do_list "Alice" alice_three = (Ok l, alice_three)
       /\ Permutation l [0; 1; 2]%nat
       /\ resolve (heap alice_three) l = Some ts'
       /\ StronglySorted goes_before ts'.
Proof.
  split.
  - apply (proj1 (generate_to_do_list_spec "Zoe" alice_three)). reflexivity.
  - exact (proj2 (generate_to_do_list_spec "Alice" alice_three)
             (TeamMember.mk "Alice" "alice@example.org" [0; 1; 2]%nat 8)
             _ eq_refl eq_refl).
Defined.

(** The order on the three tasks of Alice: HIGH due 01-20, HIGH due
    01-05, MEDIUM due 01-10. *)
Example generate_to_do_list_alice :
  outcome (generate_to_do_list "Alice") alice_three = Ok [2; 1; 0]%nat.
Proof. vm_compute. reflexivity. Qed.

(** ** Upcoming deadlines *)

Section SelectFacts.

Lemma pick_cons keep r l t ts :
  pick keep (r :: l) (t :: ts)
  = if keep t then r :: pick keep l ts else pick keep l ts.
Proof.
  unfold pick. cbn [zip zip_with List.filter snd].
  destruct (keep t); reflexivity.
Qed.

(** A comprehension over the task list reads and never writes. *)
Lemma select_run keep s l : forall ts,
  resolve (heap s) l = Some ts -> select keep l s = (Ok (pick keep l ts), s).
Proof.
  induction l as [|r l IH]; intros ts.
  - intros [= <-]. reflexivity.
  - rewrite resolve_cons. destruct (heap s !! r) as [t|] eqn:Hr; [|discriminate].
    destruct (resolve (heap s) l) as [ts0|]; [|discriminate]. intros [= <-].
    cbn [select]. rewrite bind_run, deref_run, Hr.
    rewrite bind_run, (IH ts0 eq_refl). rewrite pick_cons. reflexivity.
Qed.

Lemma pick_ext keep keep' l ts :
  Forall (fun t => keep t = keep' t) ts -> pick keep l ts = pick keep' l ts.
Proof.
  intros H. revert l. induction H as [|t ts Ht Hts IH]; intros [|r l];
    try reflexivity.
  rewrite !pick_cons, Ht, IH. reflexivity.
Qed.

Lemma pick_none keep l ts :
  Forall (fun t => keep t = false) ts -> pick keep l ts = [].
Proof.
  intros H. revert l. induction H as [|t ts Ht Hts IH]; intros [|r l];
    try reflexivity.
  rewrite pick_cons, Ht. apply IH.
Qed.

Lemma pick_Forall keep h l (P : Task.t -> Prop) : forall ts,
  resolve h l = Some ts ->
  (forall t, keep t = true -> P t) ->
  Forall (fun r => exists t, h !! r = Some t /\ P t) (pick keep l ts).
Proof.
  induction l as [|r l IH]; intros ts.
  - intros [= <-] _. constructor.
  - rewrite resolve_cons. destruct (h !! r) as [t|] eqn:Hr; [|discriminate].
    destruct (resolve h l) as [ts0|]; [|discriminate]. intros [= <-] HP.
    rewrite pick_cons. destruct (keep t) eqn:Hk; [constructor|]; eauto.
Qed.
End SelectFacts.

(** C9 (as the code has it).  When the day [today + days] exists in the
    calendar (day numbers 1 to 3652059), [get_upcoming_deadlines] returns,
    in the order of the task list, exactly the tasks whose deadline is
    one of the days from [today] to [today + days]: with [days = 0] only
    tasks due today, with negative [days] none.  The state is not
    changed. *)
Theorem get_upcoming_deadlines_spec (days : Z) (today : Date.t)
  (s : TaskManager) (ts : list Task.t) :
  Date.valid today ->
  resolve (heap s) (tasks s) = Some ts ->
  Forall (fun t => Date.valid (Task.deadline t)) ts ->
  0 < Date.toordinal today + days <= Date.MAXORDINAL ->
  let l := pick (in_window today days) (tasks s) ts in
  get_upcoming_deadlines days today s = (Ok l, s)
  /\ (days = 0 ->
      Forall (fun r => exists t, heap s !! r = Some t
                                 /\ Task.deadline t = today) l)
  /\ (days < 0 -> l = []).
Proof.
  intros Hv Hts Hdl Hr. cbv zeta.
  destruct (add_days_Some today days Hv Hr) as (dl & Hadd & Hvdl & Hord).
  assert (Hsame : Forall (fun t =>
                     Date.leb today (Task.deadline t)
                     && Date.leb (Task.deadline t) dl
                     = in_window today days t) ts).
  { eapply Forall_impl; [exact Hdl|]. intros t Ht. cbv beta in *.
    unfold in_window. rewrite <- Hord.
    pose proof (leb_toordinal today (Task.deadline t)
                  (valid_in_year _ Hv) (valid_in_year _ Ht)) as H1.
    pose proof (leb_toordinal (Task.deadline t) dl
                  (valid_in_year _ Ht) (valid_in_year _ Hvdl)) as H2.
    rewrite <- Z.leb_le in H1, H2.
    destruct (Date.leb today _), (Date.leb _ dl),
      (Date.toordinal today <=? _), (_ <=? Date.toordinal dl);
      intuition (try discriminate; reflexivity). }
  split; [|split].
  - unfold get_upcoming_deadlines. rewrite Hadd, bind_run. cbn [gets].
    rewrite (select_run _ _ _ ts Hts). f_equal. f_equal.
    apply pick_ext. exact Hsame.
  - intros ->. clear Hsame. revert Hts.
    generalize (tasks s). intros l Hl.
    assert (Hl' : Forall (fun r => exists t, heap s !! r = Some t
                    /\ (Date.valid (Task.deadline t) /\
                        (Date.valid (Task.deadline t) ->
                         Task.deadline t = today)))
                    (pick (fun t => Date.validb (Task.deadline t)
                                    && in_window today 0 t) l ts)).
    { eapply pick_Forall; [exact Hl|]. intros t [Ht Hw]%andb_true_iff.
      split; [exact Ht|]. intros _.
      unfold in_window in Hw. apply andb_true_iff in Hw as [H1 H2].
      apply Z.leb_le in H1, H2.
      apply toordinal_inj; [apply valid_in_year; exact Ht
                           |apply valid_in_year; exact Hv | lia]. }
    rewrite (pick_ext (in_window today 0)
               (fun t => Date.validb (Task.deadline t) && in_window today 0 t)).
    + eapply Forall_impl; [exact Hl'|]. intros r (t & H1 & H2 & H3). eauto.
    + eapply Forall_impl; [exact Hdl|]. intros t Ht. cbv beta.
      unfold Date.valid in Ht. rewrite Ht. reflexivity.
  - intros Hneg. apply pick_none.
    eapply Forall_impl; [exact Hdl|]. intros t _. unfold in_window.
    apply andb_false_iff.
    destruct (Z.leb_spec (Date.toordinal today)
                (Date.toordinal (Task.deadline t))); [right | left; reflexivity].
    apply Z.leb_gt. lia.
Qed.

Lemma get_upcoming_deadlines_spec_witness :
  get_upcoming_deadlines 12 (Date.mk 2024 1 8) alice_three
  = (Ok [0; 2]%nat, alice_three).
Proof.
  exact (proj1 (get_upcoming_deadlines_spec 12 (Date.mk 2024 1 8) alice_three
                  _ eq_refl eq_refl
                  ltac:(repeat constructor)
                  ltac:(vm_compute; split; [reflexivity | discriminate]))).
Defined.

(** C9, as stated, fails: a million days back from 2024-01-10 is before
    the first day of the calendar, and the call raises [OverflowError]
    instead of returning the empty list. *)
Lemma get_upcoming_deadlines_far_past_raises :
  get_upcoming_deadlines (-1000000) jan10 fresh = (Raise OverflowError, fresh)
  /\ outcome (get_upcoming_deadlines (-1000000) jan10) fresh <> Ok [].
Proof. split; [reflexivity | vm_compute; discriminate]. Qed.

(** ** Saving *)

Section SaveFacts.

Lemma has_id_fresh i T :
  Forall (fun r => row_id r < i) T -> has_id i T = false.
Proof.
  induction 1 as [|r T Hr HT IH]; [reflexivity|].
  unfold has_id in *. cbn [existsb]. rewrite IH, orb_false_r.
  apply Z.eqb_neq. lia.
Qed.

Lemma insert_by_id_last x T :
  Forall (fun r => row_id r < row_id x) T -> insert_by_id x T = T ++ [x].
Proof.
  induction 1 as [|r T Hr HT IH]; [reflexivity|].
  cbn [insert_by_id]. destruct (Z.ltb_spec (row_id x) (row_id r)); [lia|].
  rewrite IH. reflexivity.
Qed.

Lemma insert_task_row_run r s :
  insert_task_row r s
  = if negb (int64 (row_id r)) then (Raise OverflowError, s)
    else if has_id (row_id r) (tbl_tasks (db s))
    then (Raise IntegrityError, s)
    else (Ok tt,
          with_db (mk_database (insert_by_id r (tbl_tasks (db s)))
                     (tbl_team_members (db s))) s).
Proof. reflexivity. Qed.

Lemma insert_member_row_run r s :
  insert_member_row r s
  = if negb (int64 (row_workload r)) then (Raise OverflowError, s)
    else if has_name (row_name r) (tbl_team_members (db s))
    then (Raise IntegrityError, s)
    else (Ok tt,
          with_db (mk_database (tbl_tasks (db s))
                     (tbl_team_members (db s) ++ [r])) s).
Proof. reflexivity. Qed.

(** The rows of the tasks, written in the order of the list. *)
Lemma save_tasks_loop l : forall ts s,
  resolve (heap s) l = Some ts ->
  ids_increasing ts ->
  ids_fit ts ->
  Forall (fun row => Forall (fun t => row_id row < Task.id t) ts)
    (tbl_tasks (db s)) ->
  for_each (fun r => t ← deref r ; insert_task_row (task_to_row t)) l s
  = (Ok tt,
     with_db (mk_database (tbl_tasks (db s) ++ map task_to_row ts)
                (tbl_team_members (db s))) s).
Proof.
  induction l as [|r l IH]; intros ts s.
  - intros [= <-] _ _ _. cbn [for_each map]. rewrite app_nil_r.
    destruct s as [h tk ms [T Tm]]. reflexivity.
  - rewrite resolve_cons. destruct (heap s !! r) as [t|] eqn:Hr; [|discriminate].
    destruct (resolve (heap s) l) as [ts0|] eqn:Hts0; [|discriminate].
    intros [= <-] Hinc Hfit Hold. unfold ids_increasing in Hinc.
    cbn [map] in Hinc. apply StronglySorted_inv in Hinc as [Hinc0 Hlt].
    apply Forall_cons in Hfit as [Hfit1 Hfit].
    cbn [for_each]. rewrite bind_run. cbv beta. rewrite bind_run, deref_run, Hr.
    assert (Hfresh : Forall (fun row => row_id row < Task.id t)
                       (tbl_tasks (db s))).
    { eapply Forall_impl; [exact Hold|]. intros row Hrow.
      apply Forall_inv in Hrow. exact Hrow. }
    rewrite insert_task_row_run.
    change (row_id (task_to_row t)) with (Task.id t).
    rewrite Hfit1. cbn [negb].
    rewrite (has_id_fresh _ _ Hfresh).
    rewrite (insert_by_id_last (task_to_row t) _ Hfresh).
    rewrite (IH ts0); cbn [with_db heap db tbl_tasks tbl_team_members].
    + rewrite <- app_assoc. reflexivity.
    + exact Hts0.
    + exact Hinc0.
    + exact Hfit.
    + apply Forall_app. split.
      * eapply Forall_impl; [exact Hold|]. intros row Hrow.
        apply Forall_inv_tail in Hrow. exact Hrow.
      * constructor; [|constructor]. cbn [task_to_row row_id].
        rewrite Forall_map in Hlt. exact Hlt.
Qed.

Lemma has_name_app n T T' :
  has_name n (T ++ T') = has_name n T || has_name n T'.
Proof. unfold has_name. apply existsb_app. Qed.

(** The rows of the members, written in the order of the dictionary. *)
Lemma save_members_loop ms : forall s,
  NoDup (map TeamMember.name ms) ->
  Forall (fun m => int64 (TeamMember.workload m) = true) ms ->
  Forall (fun m => has_name (TeamMember.name m) (tbl_team_members (db s))
                   = false) ms ->
  for_each (fun m => insert_member_row (member_to_row m)) ms s
  = (Ok tt,
     with_db (mk_database (tbl_tasks (db s))
                (tbl_team_members (db s) ++ map member_to_row ms)) s).
Proof.
  induction ms as [|m ms IH]; intros s Hnd Hfit Hfresh.
  - cbn [for_each map]. rewrite app_nil_r.
    destruct s as [h tk d [T Tm]]. reflexivity.
  - cbn [map] in Hnd. apply NoDup_cons in Hnd as [Hm Hnd].
    apply Forall_cons in Hfit as [Hfit1 Hfit].
    apply Forall_cons in Hfresh as [Hf Hfresh].
    cbn [for_each]. rewrite bind_run, insert_member_row_run.
    change (row_workload (member_to_row m)) with (TeamMember.workload m).
    change (row_name (member_to_row m)) with (TeamMember.name m).
    rewrite Hfit1, Hf. cbn [negb].
    rewrite IH; cbn [with_db heap db tbl_tasks tbl_team_members].
    + rewrite <- app_assoc. reflexivity.
    + exact Hnd.
    + exact Hfit.
    + rewrite Forall_forall in Hfresh |- *. intros m' Hm'.
      rewrite has_name_app, (Hfresh m' Hm'). cbn [has_name existsb row_name orb].
      rewrite orb_false_r. apply String.eqb_neq. intros Heq. apply Hm.
      change (TeamMember.name m = TeamMember.name m') in Heq.
      rewrite Heq. apply list_elem_of_In, in_map, list_elem_of_In. exact Hm'.
Qed.

(** [save_data] succeeds on a task list with increasing ids and members
    with distinct names, all integers within 64 bits, and leaves one row
    per task and per member. *)
Lemma save_data_ok s ts :
  resolve (heap s) (tasks s) = Some ts ->
  ids_increasing ts ->
  ids_fit ts ->
  names_distinct s ->
  workloads_fit s ->
  save_data s
  = (Ok tt,
     with_db (mk_database (map task_to_row ts)
                (map member_to_row (dict_values (team_members s)))) s).
Proof.
  intros Hts Hinc Hfit Hnd Hwfit. unfold save_data.
  rewrite bind_run. cbn [modify]. rewrite bind_run. cbn [gets].
  rewrite bind_run.
  rewrite (save_tasks_loop _ ts); cbn [with_db heap tasks db tbl_tasks];
    [|exact Hts|exact Hinc|exact Hfit|constructor].
  rewrite bind_run. cbn [gets team_members app tbl_team_members].
  rewrite save_members_loop; cbn [with_db db tbl_tasks tbl_team_members app].
  - reflexivity.
  - exact Hnd.
  - unfold workloads_fit, dict_values in *. rewrite Forall_map. exact Hwfit.
  - apply Forall_forall. intros. reflexivity.
Qed.
End SaveFacts.

(** ** Loading *)

Section LoadFacts.
Variable lib : iso_library.
Hypothesis lib_reads : reads_isoformat lib.

Lemma task_of_row_to_row t :
  Task.valid t -> task_of_row lib (task_to_row t) = Ok t.
Proof.
  intros [Hd Hc]. destruct lib_reads as [Hrd Hrx].
  unfold task_of_row, task_to_row.
  cbn [row_deadline row_priority row_created_at row_id row_title
       row_description row_assigned_to row_status].
  rewrite (Hrd _ Hd), priority_roundtrip, (Hrx _ Hc).
  destruct t; reflexivity.
Qed.

Lemma resolve_seq ts : forall h,
  resolve (h ++ ts) (seq (length h) (length ts)) = Some ts.
Proof.
  induction ts as [|t ts IH]; intros h; [reflexivity|].
  cbn [length seq]. rewrite resolve_cons.
  rewrite list_lookup_middle by reflexivity.
  replace (h ++ t :: ts) with ((h ++ [t]) ++ ts)
    by (rewrite <- app_assoc; reflexivity).
  replace (S (length h)) with (length (h ++ [t]))
    by (rewrite length_app; cbn [length]; lia).
  rewrite IH. reflexivity.
Qed.

(** One new object per row, referenced in the order of the rows. *)
Lemma load_tasks_loop ts : forall s,
  Forall Task.valid ts ->
  for_each (fun row =>
              match task_of_row lib row with
              | Raise e => raise e
              | Ok t =>
                  r ← new_task t ;
                  modify (fun s => with_tasks (tasks s ++ [r]) s)
              end) (map task_to_row ts) s
  = (Ok tt,
     with_tasks (tasks s ++ seq (length (heap s)) (length ts))
       (with_heap (heap s ++ ts) s)).
Proof.
  induction ts as [|t ts IH]; intros s Hv.
  - cbn [for_each map length seq]. rewrite !app_nil_r.
    destruct s; reflexivity.
  - apply Forall_cons in Hv as [Ht Hv]. cbn [map for_each].
    rewrite bind_run. rewrite (task_of_row_to_row _ Ht).
    rewrite bind_run. cbn [new_task]. cbn [modify].
    rewrite (IH _ Hv).
    cbn [with_tasks with_heap heap tasks team_members db length seq].
    rewrite length_app. cbn [length].
    rewrite <- !app_assoc. cbn [app].
    replace (length (heap s) + 1)%nat with (S (length (heap s))) by lia.
    reflexivity.
Qed.

Lemma dict_mem_app {V : Type} k (d1 d2 : list (string * V)) :
  dict_mem k (d1 ++ d2) = dict_mem k d1 || dict_mem k d2.
Proof.
  induction d1 as [|[k' v] d1 IH]; [reflexivity|].
  rewrite <- app_comm_cons, !dict_mem_cons, IH, orb_assoc. reflexivity.
Qed.

(** One member per row, in the order of the rows, without tasks. *)
Lemma load_members_loop rows : forall s,
  NoDup (map row_name rows) ->
  Forall (fun row => dict_mem (row_name row) (team_members s) = false) rows ->
  for_each (fun row =>
              modify (fun s =>
                with_team_members
                  (dict_set (row_name row) (member_of_row row)
                     (team_members s)) s)) rows s
  = (Ok tt,
     with_team_members
       (team_members s
        ++ map (fun row => (row_name row, member_of_row row)) rows) s).
Proof.
  induction rows as [|row rows IH]; intros s Hnd Hfresh.
  - cbn [for_each map]. rewrite app_nil_r. destruct s; reflexivity.
  - cbn [map] in Hnd. apply NoDup_cons in Hnd as [Hrow Hnd].
    apply Forall_cons in Hfresh as [Hf Hfresh].
    cbn [for_each]. rewrite bind_run. cbn [modify].
    rewrite (dict_set_fresh _ _ _ Hf).
    rewrite IH; cbn [with_team_members heap tasks team_members db].
    + cbn [map]. rewrite <- app_assoc. reflexivity.
    + exact Hnd.
    + rewrite Forall_forall in Hfresh |- *. intros row' Hrow'.
      rewrite dict_mem_app, (Hfresh row' Hrow'), dict_mem_cons.
      cbn [orb]. rewrite orb_false_r. apply String.eqb_neq.
      intros Heq. apply Hrow. rewrite <- Heq.
      apply list_elem_of_In, in_map, list_elem_of_In. exact Hrow'.
Qed.

(** [load_data] on the tables that [save_data] writes. *)
Lemma load_data_saved s ts ms :
  db s = mk_database (map task_to_row ts) (map member_to_row ms) ->
  Forall Task.valid ts ->
  NoDup (map TeamMember.name ms) ->
  load_data lib s
  = (Ok tt,
     mk_manager (heap s ++ ts) (seq (length (heap s)) (length ts))
       (map (fun m => (TeamMember.name m,
                       TeamMember.mk (TeamMember.name m) (TeamMember.email m)
                         [] (TeamMember.workload m))) ms)
       (db s)).
Proof.
  intros Hdb Hv Hnd. destruct s as [h tk d dbs]. cbn [db] in Hdb.
  subst dbs. unfold load_data.
  rewrite bind_run. cbn [modify]. rewrite bind_run. cbn [modify].
  rewrite bind_run. cbn [gets].
  cbn [with_team_members with_tasks heap tasks team_members db].
  cbn [tbl_tasks tbl_team_members].
  rewrite bind_run, (load_tasks_loop _ _ Hv).
  rewrite bind_run. cbn [gets with_tasks with_heap db tbl_team_members].
  rewrite load_members_loop;
    cbn [with_team_members with_tasks with_heap heap tasks team_members db
         app tbl_team_members tbl_tasks].
  - rewrite map_map. reflexivity.
  - rewrite map_map. exact Hnd.
  - apply Forall_forall. intros. reflexivity.
Qed.
End LoadFacts.




(** ** Task ids *)

Section IdFacts.

Lemma fold_max_ge l : forall a,
  a <= fold_left Z.max l a /\ Forall (fun i => i <= fold_left Z.max l a) l.
Proof.
  induction l as [|x l IH]; intros a; cbn [fold_left].
  - split; [lia | constructor].
  - destruct (IH (Z.max a x)) as [H1 H2]. split; [lia|].
    constructor; [lia | exact H2].
Qed.

Lemma max_default0_ge ids : Forall (fun i => i <= max_default0 ids) ids.
Proof.
  destruct ids as [|i ids]; [constructor|]. cbn [max_default0].
  destruct (fold_max_ge ids i) as [H1 H2]. constructor; assumption.
Qed.

(** The next id is above every id of the list, and positive when they are. *)
Lemma next_id_above ids :
  Forall (fun j => j < max_default0 ids + 1) ids.
Proof.
  eapply Forall_impl; [apply max_default0_ge|]. intros j Hj. cbv beta in *. lia.
Qed.

Lemma next_id_positive ids :
  Forall (fun i => 0 < i) ids -> 0 < max_default0 ids + 1.
Proof.
  destruct ids as [|i ids]; [reflexivity|]. intros Hpos.
  apply Forall_inv in Hpos.
  pose proof (max_default0_ge (i :: ids)) as Hge. apply Forall_inv in Hge.
  lia.
Qed.

Lemma StronglySorted_snoc l x :
  StronglySorted Z.lt l -> Forall (fun j => j < x) l ->
  StronglySorted Z.lt (l ++ [x]).
Proof.
  induction 1 as [|y l Hl IH Hy]; intros Hx; cbn [app].
  - repeat constructor.
  - apply Forall_cons in Hx as [Hyx Hx]. constructor; [apply IH; exact Hx|].
    apply Forall_app. split; [exact Hy | repeat constructor; exact Hyx].
Qed.

Lemma names_dict_alter_assign r w k d :
  map TeamMember.name (dict_values (dict_alter (TeamMember.assign r w) k d))
  = map TeamMember.name (dict_values d).
Proof.
  unfold dict_values. induction d as [|[k' m] d IH]; [reflexivity|].
  cbn [dict_alter]. destruct (String.eqb k k'); cbn [map snd];
    [reflexivity | rewrite IH; reflexivity].
Qed.

Lemma resolve_extend h k l ts :
  resolve h l = Some ts -> resolve (h ++ k) l = Some ts.
Proof.
  revert ts. induction l as [|r l IH]; intros ts; [trivial|].
  rewrite !resolve_cons. destruct (h !! r) as [t0|] eqn:Hr; [|discriminate].
  destruct (resolve h l) as [ts'|]; [|discriminate]. intros [= <-].
  rewrite (lookup_app_l_Some _ _ _ _ Hr), (IH ts' eq_refl). reflexivity.
Qed.

Lemma fold_max_lt l x : forall a,
  a < x -> Forall (fun j => j < x) l -> fold_left Z.max l a < x.
Proof.
  induction l as [|y l IH]; intros a Ha Hl; cbn [fold_left]; [exact Ha|].
  apply Forall_cons in Hl as [Hy Hl]. apply IH; [lia | exact Hl].
Qed.

Lemma max_default0_snoc l x :
  Forall (fun j => j < x) l -> max_default0 (l ++ [x]) = x.
Proof.
  destruct l as [|i l]; [reflexivity|]. intros Hl.
  apply Forall_cons in Hl as [Hi Hl]. cbn [app max_default0].
  rewrite fold_left_app. cbn [fold_left].
  pose proof (fold_max_lt l x i Hi Hl). lia.
Qed.

Lemma priority_value_bounds p : 1 <= Priority.value p <= 3.
Proof. destruct p; cbn; lia. Qed.

Lemma int64_iff z :
  int64 z = true <-> -9223372036854775808 <= z <= 9223372036854775807.
Proof. unfold int64. rewrite andb_true_iff, !Z.leb_le. reflexivity. Qed.

Lemma Forall_dict_alter_impl {V : Type} (P Q : string * V -> Prop) f k d :
  (forall k' v, P (k', v) -> Q (k', v)) ->
  (forall k' v, P (k', v) -> Q (k', f v)) ->
  Forall P d -> Forall Q (dict_alter f k d).
Proof.
  intros H1 H2. induction 1 as [|[k' v] d Hx Hd IH]; cbn [dict_alter];
    [constructor|].
  destruct (String.eqb k k'); constructor; auto.
  eapply Forall_impl; [exact Hd|]. intros [k0 v0]. apply H1.
Qed.

(** Positive ids with room for one more are 64-bit integers, and so is
    the next one. *)
Lemma ids_fit_next ts t n s :
  Forall (fun i => 0 < i) (map Task.id ts) ->
  room_for (S n) s ts ->
  Task.id t = max_default0 (map Task.id ts) + 1 ->
  ids_fit (ts ++ [t]).
Proof.
  intros Hpos [Hroom _] Hid. unfold ids_fit. apply Forall_app. split.
  - pose proof (max_default0_ge (map Task.id ts)) as Hge.
    rewrite Forall_map in Hpos, Hge.
    rewrite Forall_forall in Hpos, Hge |- *. intros t0 Ht0.
    specialize (Hpos t0 Ht0). specialize (Hge t0 Ht0). cbv beta in *.
    apply int64_iff. lia.
  - repeat constructor. apply int64_iff. rewrite Hid.
    pose proof (next_id_positive _ Hpos). lia.
Qed.

(** A successful [add_task], in full. *)
Lemma add_task_ok title description deadline priority assigned_to now s ts n :
  resolve (heap s) (tasks s) = Some ts ->
  ids_increasing ts ->
  Forall (fun i => 0 < i) (map Task.id ts) ->
  names_distinct s ->
  room_for (S n) s ts ->
  registered assigned_to s ->
  let t := Task.mk (max_default0 (map Task.id ts) + 1) title description
             deadline priority assigned_to "Not Started" now in
  let ms := dict_alter (TeamMember.assign (length (heap s))
                          (Priority.value priority))
              assigned_to (team_members s) in
  add_task title description deadline priority assigned_to now s
  = (Ok (length (heap s)),
     mk_manager (heap s ++ [t]) (tasks s ++ [length (heap s)]) ms
       (mk_database (map task_to_row (ts ++ [t]))
          (map member_to_row (dict_values ms))))
  /\ room_for n
       (mk_manager (heap s ++ [t]) (tasks s ++ [length (heap s)]) ms
          (mk_database (map task_to_row (ts ++ [t]))
             (map member_to_row (dict_values ms))))
       (ts ++ [t]).
Proof.
  intros Hts Hinc Hpos Hnd Hroom Hreg. cbv zeta.
  set (t := Task.mk _ _ _ _ _ _ _ _).
  assert (Hroom' : forall d,
            room_for n
              (mk_manager (heap s ++ [t]) (tasks s ++ [length (heap s)])
                 (dict_alter (TeamMember.assign (length (heap s))
                                (Priority.value priority))
                    assigned_to (team_members s)) d)
              (ts ++ [t])).
  { intros d. destruct Hroom as [Hr1 Hr2]. split.
    - rewrite map_app. cbn [map]. rewrite max_default0_snoc
        by apply next_id_above.
      subst t. cbn [Task.id]. lia.
    - cbn [team_members].
      eapply Forall_dict_alter_impl; [| |exact Hr2];
        intros k' v Hv; cbn [snd TeamMember.assign TeamMember.workload] in *;
        pose proof (priority_value_bounds priority); lia. }
  split; [|apply Hroom'].
  rewrite (add_task_run _ _ _ _ _ _ s ts Hts). cbv zeta.
  unfold registered in Hreg. rewrite Hreg. fold t.
  erewrite save_data_ok;
    cbn [with_team_members with_tasks with_heap heap tasks team_members db].
  - reflexivity.
  - apply resolve_app; [apply resolve_alloc; exact Hts | apply resolve_fresh].
  - unfold ids_increasing in *. rewrite map_app. cbn [map].
    apply StronglySorted_snoc; [exact Hinc | apply next_id_above].
  - apply (ids_fit_next ts t n s Hpos Hroom). reflexivity.
  - unfold names_distinct.
    cbn [with_team_members with_tasks with_heap team_members].
    rewrite names_dict_alter_assign. exact Hnd.
  - destruct (Hroom' (db s)) as [_ Hw]. unfold workloads_fit.
    cbn [team_members] in *. eapply Forall_impl; [exact Hw|].
    intros km Hkm. cbv beta in *. apply int64_iff. lia.
Qed.

Lemma add_tasks_ids_aux calls : forall s ts,
  resolve (heap s) (tasks s) = Some ts ->
  ids_increasing ts ->
  Forall (fun i => 0 < i) (map Task.id ts) ->
  names_distinct s ->
  room_for (length calls) s ts ->
  Forall (fun a => registered (arg_assigned_to a) s) calls ->
  exists new,
    let refs := seq (length (heap s)) (length new) in
    let s' := (add_tasks calls s).2 in
    (add_tasks calls s).1 = map Ok refs
    /\ heap s' = heap s ++ new
    /\ tasks s' = tasks s ++ refs
    /\ issued_ok (map Task.id ts) (map Task.id new).
Proof.
  induction calls as [|a calls IH]; intros s ts Hts Hinc Hpos Hnd Hroom Hreg.
  - exists []. cbn. rewrite !app_nil_r. repeat split.
  - apply Forall_cons in Hreg as [Ha Hreg].
    enough (Hgoal : exists new,
              (add_tasks (a :: calls) s).1
              = map Ok (seq (length (heap s)) (length new))
              /\ heap (add_tasks (a :: calls) s).2 = heap s ++ new
              /\ tasks (add_tasks (a :: calls) s).2
                 = tasks s ++ seq (length (heap s)) (length new)
              /\ issued_ok (map Task.id ts) (map Task.id new))
      by exact Hgoal.
    cbn [add_tasks]. unfold call_add_task. cbn [length] in Hroom.
    pose proof (add_task_ok (arg_title a) (arg_description a)
                  (arg_deadline a) (arg_priority a) (arg_assigned_to a)
                  (arg_now a) s ts (length calls) Hts Hinc Hpos Hnd Hroom Ha)
      as Hrun.
    cbv zeta in Hrun. destruct Hrun as [Hrun Hroom1]. rewrite Hrun. clear Hrun.
    set (t := Task.mk _ _ _ _ _ _ _ _) in *.
    set (s1 := mk_manager _ _ _ _) in *.
    destruct (IH s1 (ts ++ [t])) as (new & H1 & H2 & H3 & H4).
    + subst s1. cbn [heap tasks].
      apply resolve_app; [apply resolve_alloc; exact Hts | apply resolve_fresh].
    + unfold ids_increasing in *. rewrite map_app. cbn [map].
      apply StronglySorted_snoc; [exact Hinc | apply next_id_above].
    + rewrite map_app. apply Forall_app. split; [exact Hpos|].
      repeat constructor. apply next_id_positive. exact Hpos.
    + subst s1. unfold names_distinct. cbn [team_members].
      rewrite names_dict_alter_assign. exact Hnd.
    + exact Hroom1.
    + eapply Forall_impl; [exact Hreg|]. intros a' Ha'.
      subst s1. unfold registered in *. cbn [team_members].
      rewrite dict_mem_alter. exact Ha'.
    + cbv zeta in H1, H2, H3.
      destruct (add_tasks calls s1) as [os s2]. cbn [fst snd] in *.
      exists (t :: new). cbv zeta. cbn [fst snd length seq map].
      subst s1. cbn [heap tasks] in *.
      rewrite length_app in H1, H3. cbn [length] in H1, H3.
      replace (length (heap s) + 1)%nat with (S (length (heap s)))
        in H1, H3 by lia.
      rewrite H1, H2, H3, <- !app_assoc. cbn [app].
      split; [reflexivity|]. split; [reflexivity|]. split; [reflexivity|].
      cbn [issued_ok]. rewrite map_app in H4. cbn [map] in H4.
      split; [reflexivity|]. split; [apply next_id_positive; exact Hpos|].
      split; [apply next_id_above|]. split; [|exact H4].
      intros Hnil. subst t. cbn [Task.id]. rewrite Hnil. reflexivity.
Qed.
End IdFacts.



(** From a fresh database the ids are 1, 2, 3, ... *)
Example add_tasks_from_fresh :
  map Task.id (heap alice_three) = [1; 2; 3].
Proof. reflexivity. Qed.

(* ================================================================== *)
(** * Part III: further properties of the methods *)
(* ================================================================== *)

(** ** What a successful [add_task] does *)

Section AddTaskEffect.

Lemma dict_get_alter_eq {V : Type} (f : V -> V) k d v :
  dict_get k d = Some v -> dict_get k (dict_alter f k d) = Some (f v).
Proof.
  induction d as [|[k' v'] d IH]; [discriminate|].
  cbn [dict_get dict_alter].
  destruct (String.eqb k k') eqn:E; cbn [dict_get]; rewrite E.
  - intros [= ->]. reflexivity.
  - exact IH.
Qed.

Lemma dict_get_alter_ne {V : Type} (f : V -> V) k k0 d :
  k0 <> k -> dict_get k0 (dict_alter f k d) = dict_get k0 d.
Proof.
  intros Hne. induction d as [|[k' v'] d IH]; [reflexivity|].
  cbn [dict_get dict_alter].
  destruct (String.eqb k k') eqn:E; cbn [dict_get]; [|rewrite IH; reflexivity].
  apply String.eqb_eq in E. subst k'.
  assert (String.eqb k0 k = false) as -> by (apply String.eqb_neq; exact Hne).
  reflexivity.
Qed.

Lemma for_each_raises {A : Type} (body : A -> M unit) (P : exn -> Prop) l :
  (forall x s e, (body x s).1 = Raise e -> P e) ->
  forall s e, (for_each body l s).1 = Raise e -> P e.
Proof.
  intros Hb. induction l as [|x l IH]; intros s e; cbn [for_each].
  - discriminate.
  - rewrite bind_run. destruct (body x s) as [[[]|e0] s1] eqn:E.
    + apply IH.
    + cbn [fst]. intros [= <-]. apply (Hb x s). rewrite E. reflexivity.
Qed.

Lemma for_each_heap_tasks {A : Type} (body : A -> M unit) l s :
  (forall x s, same_memory s (body x s).2) ->
  heap (for_each body l s).2 = heap s.
Proof. intros H. apply (for_each_same_memory body l H s). Qed.

(** With every reference in place, [save_data] can only fail on a key
    that is already in a table or on an integer beyond 64 bits. *)
Lemma save_data_raises s ts e :
  resolve (heap s) (tasks s) = Some ts ->
  outcome save_data s = Raise e ->
  e = IntegrityError \/ e = OverflowError.
Proof.
  intros Hts. unfold outcome, save_data.
  rewrite bind_run. cbn [modify]. rewrite bind_run. cbn [gets].
  rewrite bind_run.
  set (s0 := with_db (mk_database [] []) s).
  assert (Hloop : forall l ts' s', heap s' = heap s ->
            resolve (heap s) l = Some ts' ->
            forall e', (for_each (fun r => t ← deref r;
                                   insert_task_row (task_to_row t)) l s').1
                       = Raise e' ->
                       e' = IntegrityError \/ e' = OverflowError).
  { induction l as [|r l IH]; intros ts' s' Hh Hl e'; cbn [for_each];
      [discriminate|].
    rewrite resolve_cons in Hl.
    destruct (heap s !! r) as [t|] eqn:Hr; [|discriminate].
    destruct (resolve (heap s) l) as [ts0|] eqn:Hl0; [|discriminate].
    rewrite bind_run. cbv beta. rewrite bind_run, deref_run, Hh, Hr.
    rewrite insert_task_row_run.
    destruct (negb _); [cbn [fst]; intros [= <-]; right; reflexivity|].
    destruct (has_id _ _); [cbn [fst]; intros [= <-]; left; reflexivity|].
    apply (IH ts0); [exact Hh | reflexivity]. }
  destruct (for_each _ (tasks s0) s0) as [[[]|e0] s1] eqn:E1.
  - rewrite bind_run. cbn [gets]. intros He.
    eapply (for_each_raises
              (fun m => insert_member_row (member_to_row m))
              (fun e => e = IntegrityError \/ e = OverflowError));
      [|exact He].
    intros x s' e'. rewrite insert_member_row_run.
    destruct (negb _); [cbn [fst]; intros [= <-]; right; reflexivity|].
    destruct (has_name _ _); cbn [fst];
      [intros [= <-]; left; reflexivity | discriminate].
  - cbn [fst]. intros [= <-].
    apply (Hloop (tasks s0) ts s0 eq_refl Hts). rewrite E1. reflexivity.
Qed.
End AddTaskEffect.



(** ** Ids under every mutating method *)

Section IdInvariant.

Lemma resolve_insert_ids h r t t' l ts :
  h !! r = Some t -> Task.id t' = Task.id t ->
  resolve h l = Some ts ->
  exists ts', resolve (<[r := t']> h) l = Some ts'
              /\ map Task.id ts' = map Task.id ts.
Proof.
  intros Hr Hid. revert ts. induction l as [|r0 l IH]; intros ts.
  - intros [= <-]. exists []. split; reflexivity.
  - rewrite !resolve_cons. destruct (h !! r0) as [t0|] eqn:Hr0; [|discriminate].
    destruct (resolve h l) as [ts0|]; [|discriminate]. intros [= <-].
    destruct (IH ts0 eq_refl) as (ts1 & H1 & H2). rewrite H1.
    destruct (decide (r = r0)) as [<- | Hne].
    + rewrite list_lookup_insert_eq by (eapply lookup_lt_Some; exact Hr).
      eexists. split; [reflexivity|]. cbn [map].
      assert (t0 = t) by congruence. subst t0. rewrite Hid, H2. reflexivity.
    + rewrite list_lookup_insert_ne by exact Hne. rewrite Hr0.
      eexists. split; [reflexivity|]. cbn [map]. rewrite H2. reflexivity.
Qed.

Lemma ids_well_formed_same_memory s s' :
  same_memory s s' -> ids_well_formed s -> ids_well_formed s'.
Proof.
  unfold ids_well_formed. intros (Hh & Ht & _). rewrite Hh, Ht. trivial.
Qed.

(** Assigning a field other than the id keeps the ids. *)
Lemma ids_well_formed_insert s r t t' :
  heap s !! r = Some t -> Task.id t' = Task.id t ->
  ids_well_formed s -> ids_well_formed (with_heap (<[r := t']> (heap s)) s).
Proof.
  intros Hr Hid (ts & Hts & Hinc & Hpos).
  destruct (resolve_insert_ids _ _ _ t' _ _ Hr Hid Hts) as (ts' & H1 & H2).
  exists ts'. cbn [with_heap heap tasks]. split; [exact H1|].
  unfold ids_increasing. rewrite H2. split; assumption.
Qed.

Lemma ids_well_formed_add_task title description deadline priority
  assigned_to now s :
  ids_well_formed s ->
  ids_well_formed
    (after (add_task title description deadline priority assigned_to now) s).
Proof.
  intros (ts & Hts & Hinc & Hpos). unfold after.
  rewrite (add_task_run _ _ _ _ _ _ s ts Hts). cbv zeta.
  set (t := Task.mk _ _ _ _ _ _ _ _).
  assert (H1 : ids_well_formed
                 (with_tasks (tasks s ++ [length (heap s)])
                    (with_heap (heap s ++ [t]) s))).
  { exists (ts ++ [t]). cbn [with_tasks with_heap heap tasks].
    split; [apply resolve_app;
            [apply resolve_alloc; exact Hts | apply resolve_fresh]|].
    unfold ids_increasing. rewrite map_app. cbn [map]. split.
    - apply StronglySorted_snoc; [exact Hinc | apply next_id_above].
    - apply Forall_app. split; [exact Hpos|]. repeat constructor.
      apply next_id_positive. exact Hpos. }
  destruct (dict_mem assigned_to (team_members s)); [|exact H1].
  match goal with |- context [save_data ?x] =>
    pose proof (save_data_same_memory x) as Hsame;
    destruct (save_data x) as [[[]|e] s3] end; cbn [snd] in *;
    (eapply ids_well_formed_same_memory; [exact Hsame|]);
    destruct H1 as (ts1 & Ha & Hb & Hc); exists ts1;
    (split; [exact Ha | split; assumption]).
Qed.

Lemma update_loop_cases task_id new_status s l : forall ts,
  resolve (heap s) l = Some ts ->
  update_task_status_loop task_id new_status l s = (Ok tt, s)
  \/ exists r t,
       heap s !! r = Some t
       /\ update_task_status_loop task_id new_status l s
          = save_data
              (with_heap (<[r := Task.set_status t new_status]> (heap s)) s).
Proof.
  induction l as [|r l IH]; intros ts; [left; reflexivity|].
  rewrite resolve_cons. destruct (heap s !! r) as [t|] eqn:Hr; [|discriminate].
  destruct (resolve (heap s) l) as [ts0|]; [|discriminate]. intros _.
  cbn [update_task_status_loop]. rewrite bind_run, deref_run, Hr.
  destruct (Task.id t =? task_id).
  - right. exists r, t. split; [exact Hr|].
    rewrite bind_run. reflexivity.
  - apply (IH ts0). reflexivity.
Qed.

Lemma ids_well_formed_update task_id new_status s :
  ids_well_formed s ->
  ids_well_formed (after (update_task_status task_id new_status) s).
Proof.
  intros Hwf. pose proof Hwf as (ts & Hts & _).
  unfold after, update_task_status. rewrite bind_run. cbn [gets].
  destruct (update_loop_cases task_id new_status s (tasks s) ts Hts)
    as [-> | (r & t & Hr & ->)]; [exact Hwf|].
  eapply ids_well_formed_same_memory; [apply save_data_same_memory|].
  apply (ids_well_formed_insert s r t); [exact Hr | reflexivity | exact Hwf].
Qed.

Lemma ids_well_formed_allocate task s :
  ids_well_formed s -> ids_well_formed (after (allocate_task task) s).
Proof.
  intros Hwf. unfold after. rewrite allocate_task_run.
  destruct (min_workload _) as [[i m]|]; [|exact Hwf].
  destruct (heap s !! task) as [t|] eqn:Ht; [|exact Hwf].
  eapply ids_well_formed_same_memory; [apply save_data_same_memory|].
  pose proof (ids_well_formed_insert s task t
                (Task.set_assigned_to t (TeamMember.name m)) Ht eq_refl Hwf)
    as (ts & H1 & H2 & H3).
  exists ts. split; [exact H1 | split; assumption].
Qed.

Lemma add_team_member_heap_tasks name email s :
  heap (after (add_team_member name email) s) = heap s
  /\ tasks (after (add_team_member name email) s) = tasks s.
Proof.
  unfold after, add_team_member. rewrite bind_run. cbn [gets].
  destruct (dict_mem name (team_members s)); cbn [negb];
    [split; reflexivity|].
  rewrite bind_run. cbn [modify].
  match goal with |- context [save_data ?x] =>
    destruct (save_data_same_memory x) as (Hh & Ht & _) end.
  rewrite Hh, Ht. split; reflexivity.
Qed.

Lemma ids_well_formed_add_member name email s :
  ids_well_formed s -> ids_well_formed (after (add_team_member name email) s).
Proof.
  unfold ids_well_formed.
  destruct (add_team_member_heap_tasks name email s) as [-> ->]. trivial.
Qed.

Lemma increasing_NoDup l : StronglySorted Z.lt l -> NoDup l.
Proof.
  induction 1 as [|x l Hl IH Hx]; constructor; [|exact IH].
  intros Hin. rewrite Forall_forall in Hx. specialize (Hx x Hin). lia.
Qed.
End IdInvariant.

(** X2.  Whatever sequence of [add_task], [update_task_status],
    [allocate_task] and [add_team_member] calls is made, returning or
    raising, the ids along the task list stay positive and increasing, so
    no two tasks of the list ever share an id. *)
Theorem task_ids_stay_unique (ops : list manager_op) (s : TaskManager) :
  ids_well_formed s ->
  exists ts,
    resolve (heap (run_manager_ops ops s)) (tasks (run_manager_ops ops s))
    = Some ts
    /\ ids_increasing ts
    /\ Forall (fun i => 0 < i) (map Task.id ts)
    /\ NoDup (map Task.id ts).
Proof.
  intros Hwf.
  assert (H : ids_well_formed (run_manager_ops ops s)).
  { revert s Hwf. induction ops as [|o ops IH]; intros s Hwf; [exact Hwf|].
    cbn [run_manager_ops fold_left]. apply IH.
    destruct o; cbn [run_manager_op].
    - apply ids_well_formed_add_task. exact Hwf.
    - apply ids_well_formed_update. exact Hwf.
    - apply ids_well_formed_allocate. exact Hwf.
    - apply ids_well_formed_add_member. exact Hwf. }
  destruct H as (ts & H1 & H2 & H3). exists ts.
  repeat split; try assumption. apply increasing_NoDup. exact H2.
Qed.

Lemma task_ids_stay_unique_witness :
  exists ts,
    let ops := [DoAddTeamMember "Alice" "alice@example.org";
                DoAddTask (mk_args "Plan" "Sprint" jan10 MEDIUM "Alice" clock);
                DoAddTask (mk_args "Lost" "Nobody" jan10 HIGH "Carol" clock);
                DoUpdateStatus 1 "Completed";
                DoAllocateTask 1%nat;
                DoAddTask (mk_args "Test" "Release" jan10 LOW "Alice" clock)] in
    resolve (heap (run_manager_ops ops fresh)) (tasks (run_manager_ops ops fresh))
    = Some ts
    /\ ids_increasing ts
    /\ Forall (fun i => 0 < i) (map Task.id ts)
    /\ NoDup (map Task.id ts).
Proof.
  apply task_ids_stay_unique. exists []. repeat constructor.
Defined.

(** ** Queries read and never write *)

Section QueryFacts.

Lemma pick_sublist keep : forall l ts, sublist (pick keep l ts) l.
Proof.
  induction l as [|r l IH]; intros [|t ts]; try apply sublist_nil_l.
  rewrite pick_cons. destruct (keep t);
    [apply sublist_skip | apply sublist_cons]; apply IH.
Qed.

Lemma pick_elem keep h r : forall l ts,
  resolve h l = Some ts ->
  (r ∈ pick keep l ts
   <-> r ∈ l /\ exists t, h !! r = Some t /\ keep t = true).
Proof.
  induction l as [|r0 l IH]; intros ts.
  - intros [= <-]. split; [intros H%elem_of_nil; contradiction|].
    intros [H%elem_of_nil _]. contradiction.
  - rewrite resolve_cons. destruct (h !! r0) as [t0|] eqn:Hr0; [|discriminate].
    destruct (resolve h l) as [ts0|] eqn:Hl; [|discriminate]. intros [= <-].
    rewrite pick_cons. specialize (IH ts0 eq_refl).
    destruct (keep t0) eqn:Hk; rewrite !elem_of_cons, IH.
    + split.
      * intros [-> | [H1 H2]]; [split; [left; reflexivity | eauto]|].
        split; [right; exact H1 | exact H2].
      * intros [[-> | H1] H2]; [left; reflexivity | right; split; assumption].
    + split.
      * intros [H1 H2]. split; [right; exact H1 | exact H2].
      * intros [[-> | H1] (t & Ht & Hkt)]; [congruence|].
        split; [exact H1 | eauto].
Qed.

Lemma priority_eqb_eq p q : Priority.eqb p q = true <-> p = q.
Proof. destruct p, q; cbn; split; congruence. Qed.
End QueryFacts.

(** X3.  [get_tasks_by_priority] returns, in the order of the task list,
    exactly the tasks of the list that have the given priority, and
    changes nothing. *)
Theorem get_tasks_by_priority_spec (priority : Priority) (s : TaskManager)
  (ts : list Task.t) :
  resolve (heap s) (tasks s) = Some ts ->
  exists l,
    get_tasks_by_priority priority s = (Ok l, s)
    /\ sublist l (tasks s)
    /\ forall r, r ∈ l
                 <-> r ∈ tasks s
                     /\ exists t, heap s !! r = Some t
                                  /\ Task.priority t = priority.
Proof.
  intros Hts. unfold get_tasks_by_priority. rewrite bind_run. cbn [gets].
  rewrite (select_run _ _ _ ts Hts). eexists. split; [reflexivity|].
  split; [apply pick_sublist|]. intros r.
  rewrite (pick_elem _ (heap s) r _ _ Hts). split.
  - intros [H1 (t & Ht & Hp)]. apply priority_eqb_eq in Hp. eauto.
  - intros [H1 (t & Ht & Hp)]. apply priority_eqb_eq in Hp. eauto.
Qed.

Lemma get_tasks_by_priority_spec_witness :
  exists l,
    get_tasks_by_priority HIGH alice_three = (Ok l, alice_three)
    /\ sublist l (tasks alice_three)
    /\ forall r, r ∈ l
                 <-> r ∈ tasks alice_three
                     /\ exists t, heap alice_three !! r = Some t
                                  /\ Task.priority t = HIGH.
Proof. exact (get_tasks_by_priority_spec HIGH alice_three _ eq_refl). Defined.

(** X4.  [get_upcoming_deadlines] raises [OverflowError] exactly when
    [today + days] is no day of the calendar (day number outside 1 to
    3652059); in no case does it change the state. *)
Theorem get_upcoming_deadlines_overflow (days : Z) (today : Date.t)
  (s : TaskManager) (ts : list Task.t) :
  Date.valid today ->
  resolve (heap s) (tasks s) = Some ts ->
  (outcome (get_upcoming_deadlines days today) s = Raise OverflowError
   <-> ~ (0 < Date.toordinal today + days <= Date.MAXORDINAL))
  /\ after (get_upcoming_deadlines days today) s = s.
Proof.
  intros Hv Hts. unfold outcome, after, get_upcoming_deadlines.
  destruct (Z_lt_dec 0 (Date.toordinal today + days)) as [H1 | H1];
    [destruct (Z_le_dec (Date.toordinal today + days) Date.MAXORDINAL)
       as [H2 | H2]|].
  - destruct (add_days_Some today days Hv (conj H1 H2)) as (dl & -> & _).
    rewrite bind_run. cbn [gets]. rewrite (select_run _ _ _ ts Hts).
    cbn [fst snd]. split; [|reflexivity]. split; [discriminate | lia].
  - rewrite add_days_None by lia. cbn [raise fst snd].
    split; [|reflexivity]. split; [lia | reflexivity].
  - rewrite add_days_None by lia. cbn [raise fst snd].
    split; [|reflexivity]. split; [lia | reflexivity].
Qed.

Lemma get_upcoming_deadlines_overflow_witness :
  outcome (get_upcoming_deadlines 3000000 jan10) alice_three
  = Raise OverflowError.
Proof.
  apply (proj1 (get_upcoming_deadlines_overflow 3000000 jan10 alice_three
                  _ eq_refl eq_refl)).
  vm_compute. intros [_ H]. apply H. reflexivity.
Defined.

(** X5.  [save_data] writes to the database only: the task objects, the
    task list and the members are the same afterwards, whether the call
    returns or raises. *)
Theorem save_data_keeps_collections (s : TaskManager) :
  heap (after save_data s) = heap s
  /\ tasks (after save_data s) = tasks s
  /\ team_members (after save_data s) = team_members s.
Proof. exact (save_data_same_memory s). Qed.

(** ** When [save_data] succeeds *)

Section SaveOutcome.

Lemma for_each_invariant {A : Type} (I : TaskManager -> Prop)
  (body : A -> M unit) (l : list A) :
  (forall x s, I s -> I (body x s).2) ->
  forall s, I s -> I (for_each body l s).2.
Proof.
  intros Hb. induction l as [|x l IH]; intros s Hs; cbn [for_each];
    [exact Hs|].
  rewrite bind_run. specialize (Hb x s Hs).
  destruct (body x s) as [[[]|e] s1]; cbn [snd] in *; [apply IH|]; exact Hb.
Qed.

Lemma has_id_insert i r T :
  has_id i (insert_by_id r T) = (row_id r =? i) || has_id i T.
Proof.
  unfold has_id. induction T as [|r' T IH]; [reflexivity|].
  cbn [insert_by_id]. destruct (row_id r <? row_id r'); cbn [existsb];
    [reflexivity|].
  rewrite IH. destruct (row_id r' =? i), (row_id r =? i); reflexivity.
Qed.

Lemma save_tasks_outcome l : forall ts s,
  resolve (heap s) l = Some ts ->
  ((for_each (fun r => t ← deref r ; insert_task_row (task_to_row t)) l s).1
   = Ok tt
   <-> NoDup (map Task.id ts)
       /\ ids_fit ts
       /\ Forall (fun t => has_id (Task.id t) (tbl_tasks (db s)) = false) ts).
Proof.
  unfold ids_fit. induction l as [|r l IH]; intros ts s.
  - intros [= <-]. cbn.
    split; [intros _; repeat split; constructor | reflexivity].
  - rewrite resolve_cons. destruct (heap s !! r) as [t|] eqn:Hr; [|discriminate].
    destruct (resolve (heap s) l) as [ts0|] eqn:Hl; [|discriminate].
    intros [= <-]. cbn [for_each map]. rewrite bind_run. cbv beta.
    rewrite bind_run, deref_run, Hr, insert_task_row_run.
    change (row_id (task_to_row t)) with (Task.id t).
    rewrite NoDup_cons, !Forall_cons.
    destruct (int64 (Task.id t)) eqn:Hfit; cbn [negb];
      [|cbn [fst]; split; [discriminate | intros (_ & [[=] _] & _)]].
    destruct (has_id (Task.id t) (tbl_tasks (db s))) eqn:Hid.
    + cbn [fst]. split; [discriminate | intros (_ & _ & [=] & _)].
    + rewrite (IH ts0); [|exact Hl].
      cbn [with_db db tbl_tasks].
      assert (Hiff : Forall (fun t' => has_id (Task.id t')
                         (insert_by_id (task_to_row t) (tbl_tasks (db s)))
                       = false) ts0
                     <-> (Task.id t ∉ map Task.id ts0)
                         /\ Forall (fun t' => has_id (Task.id t')
                                      (tbl_tasks (db s)) = false) ts0).
      { clear. induction ts0 as [|t' ts0 IH0].
        - split; [intros _; split; [apply not_elem_of_nil | constructor]
                 | constructor].
        - cbn [map]. rewrite !Forall_cons, IH0, not_elem_of_cons.
          rewrite has_id_insert, orb_false_iff.
          change (row_id (task_to_row t)) with (Task.id t).
          rewrite Z.eqb_neq. tauto. }
      rewrite Hiff. tauto.
Qed.

Lemma save_members_outcome ms : forall s,
  ((for_each (fun m => insert_member_row (member_to_row m)) ms s).1 = Ok tt
   <-> NoDup (map TeamMember.name ms)
       /\ Forall (fun m => int64 (TeamMember.workload m) = true) ms
       /\ Forall (fun m => has_name (TeamMember.name m)
                             (tbl_team_members (db s)) = false) ms).
Proof.
  induction ms as [|m ms IH]; intros s.
  - cbn. split; [intros _; repeat split; constructor | reflexivity].
  - cbn [for_each map]. rewrite bind_run, insert_member_row_run.
    change (row_name (member_to_row m)) with (TeamMember.name m).
    change (row_workload (member_to_row m)) with (TeamMember.workload m).
    rewrite NoDup_cons, !Forall_cons.
    destruct (int64 (TeamMember.workload m)) eqn:Hfit; cbn [negb];
      [|cbn [fst]; split; [discriminate | intros (_ & [[=] _] & _)]].
    destruct (has_name (TeamMember.name m) (tbl_team_members (db s))) eqn:Hn.
    + cbn [fst]. split; [discriminate | intros (_ & _ & [=] & _)].
    + rewrite IH. cbn [with_db db tbl_team_members].
      assert (Hiff : Forall (fun m' => has_name (TeamMember.name m')
                         (tbl_team_members (db s) ++ [member_to_row m])
                       = false) ms
                     <-> (TeamMember.name m ∉ map TeamMember.name ms)
                         /\ Forall (fun m' => has_name (TeamMember.name m')
                                      (tbl_team_members (db s)) = false) ms).
      { clear. induction ms as [|m' ms IH0].
        - split; [intros _; split; [apply not_elem_of_nil | constructor]
                 | constructor].
        - cbn [map]. rewrite !Forall_cons, IH0, not_elem_of_cons.
          rewrite has_name_app, orb_false_iff.
          cbn [has_name existsb]. rewrite orb_false_r.
          change (row_name (member_to_row m)) with (TeamMember.name m).
          rewrite String.eqb_neq. tauto. }
      rewrite Hiff. tauto.
Qed.

Lemma save_tasks_keeps_members l s :
  tbl_team_members
    (db (for_each (fun r => t ← deref r ; insert_task_row (task_to_row t))
           l s).2)
  = tbl_team_members (db s)
  /\ team_members
       (for_each (fun r => t ← deref r ; insert_task_row (task_to_row t))
          l s).2
     = team_members s.
Proof.
  apply (for_each_invariant
           (fun s' => tbl_team_members (db s') = tbl_team_members (db s)
                      /\ team_members s' = team_members s));
    [|split; reflexivity].
  intros r s' Hs'. cbv beta. rewrite bind_run, deref_run.
  destruct (heap s' !! r); [|exact Hs']. rewrite insert_task_row_run.
  destruct (negb _); [exact Hs'|]. destruct (has_id _ _); exact Hs'.
Qed.
End SaveOutcome.



(** ** What [load_data] leaves behind *)

Section LoadOutcome.
Variable lib : iso_library.

Lemma for_each_app {A : Type} (body : A -> M unit) (l1 l2 : list A) s :
  for_each body (l1 ++ l2) s
  = match for_each body l1 s with
    | (Ok _, s1) => for_each body l2 s1
    | (Raise e, s1) => (Raise e, s1)
    end.
Proof.
  revert s. induction l1 as [|x l1 IH]; intros s; [reflexivity|].
  cbn [app for_each]. rewrite !bind_run.
  destruct (body x s) as [[[]|e] s1]; [apply IH | reflexivity].
Qed.

Lemma Forall_dict_set {V : Type} (P : string * V -> Prop) k v d :
  P (k, v) -> Forall P d -> Forall P (dict_set k v d).
Proof.
  intros Hv. induction 1 as [|[k' v'] d Hx Hd IH]; cbn [dict_set].
  - repeat constructor. exact Hv.
  - destruct (String.eqb k k'); constructor; assumption.
Qed.

Lemma dict_get_Forall {V : Type} (P : string * V -> Prop) k d v :
  Forall P d -> dict_get k d = Some v -> exists k', P (k', v).
Proof.
  induction 1 as [|[k' v'] d Hx Hd IH]; [discriminate|].
  cbn [dict_get]. destruct (String.eqb k k'); [|exact IH].
  intros [= <-]. eauto.
Qed.

(** Whatever the database holds and however the load ends, no member
    comes out of it with a task. *)
Lemma load_data_members_without_tasks s :
  Forall (fun km => TeamMember.tasks km.2 = [])
    (team_members (load_data lib s).2).
Proof.
  unfold load_data. rewrite bind_run. cbn [modify].
  rewrite bind_run. cbn [modify]. rewrite bind_run. cbn [gets].
  set (I := fun s' : TaskManager =>
              Forall (fun km => TeamMember.tasks km.2 = []) (team_members s')).
  set (s0 := with_team_members [] (with_tasks [] s)).
  assert (H0 : I s0) by constructor.
  rewrite bind_run.
  match goal with |- context [for_each ?b ?l s0] =>
    pose proof (for_each_invariant I b l) as H1 end.
  specialize (H1 ltac:(intros row s' Hs'; cbv beta;
                       destruct (task_of_row lib row);
                       [exact Hs' | exact Hs']) s0 H0).
  match goal with |- context [for_each ?b ?l s0] =>
    destruct (for_each b l s0) as [[[]|e] s1] end; cbn [snd] in *;
    [|exact H1].
  rewrite bind_run. cbn [gets].
  apply (for_each_invariant I); [|exact H1].
  intros row s' Hs'. cbn [modify snd]. unfold I.
  cbn [with_team_members team_members].
  apply Forall_dict_set; [reflexivity | exact Hs'].
Qed.

(** Rows that the library and the priority table turn into these tasks
    are loaded one new object each, in order. *)
Lemma load_rows_loop rows : forall ts s,
  Forall2 (fun row t => task_of_row lib row = Ok t) rows ts ->
  for_each (fun row =>
              match task_of_row lib row with
              | Raise e => raise e
              | Ok t =>
                  r ← new_task t ;
                  modify (fun s => with_tasks (tasks s ++ [r]) s)
              end) rows s
  = (Ok tt,
     with_tasks (tasks s ++ seq (length (heap s)) (length ts))
       (with_heap (heap s ++ ts) s)).
Proof.
  induction rows as [|row rows IH]; intros ts s Hrows.
  - inversion Hrows; subst. cbn [for_each length seq]. rewrite !app_nil_r.
    destruct s; reflexivity.
  - inversion Hrows as [|? t ? ts0 Hrow Hrest]; subst. cbn [for_each].
    rewrite bind_run, Hrow, bind_run. cbn [new_task modify].
    rewrite (IH _ _ Hrest).
    cbn [with_tasks with_heap heap tasks team_members db length seq].
    rewrite length_app. cbn [length].
    rewrite <- !app_assoc. cbn [app].
    replace (length (heap s) + 1)%nat with (S (length (heap s))) by lia.
    reflexivity.
Qed.
End LoadOutcome.

(** X7.  [load_data] empties the collections and then builds the tasks
    row by row.  At the first row for which the construction raises (the
    library's exception for a deadline or timestamp it does not read;
    [KeyError] for a priority name that is not LOW, MEDIUM or HIGH) the
    call raises that exception: the tasks of the earlier rows are loaded,
    the later ones and all the members are missing. *)
Theorem load_data_stops_at_bad_row (lib : iso_library) (s : TaskManager)
  (good_rows : list task_row) (good : list Task.t)
  (bad : task_row) (rest : list task_row) (mrows : list member_row)
  (e : exn) :
  db s = mk_database (good_rows ++ bad :: rest) mrows ->
  Forall2 (fun row t => task_of_row lib row = Ok t) good_rows good ->
  task_of_row lib bad = Raise e ->
  load_data lib s
  = (Raise e,
     mk_manager (heap s ++ good) (seq (length (heap s)) (length good)) []
       (db s)).
Proof.
  intros Hdb Hgood Hbad. destruct s as [h tk d dbs]. cbn [db] in Hdb.
  subst dbs. unfold load_data.
  rewrite bind_run. cbn [modify]. rewrite bind_run. cbn [modify].
  rewrite bind_run. cbn [gets].
  cbn [with_team_members with_tasks heap tasks team_members db tbl_tasks].
  rewrite bind_run, for_each_app, (load_rows_loop lib _ _ _ Hgood).
  cbn [for_each]. rewrite bind_run, Hbad. reflexivity.
Qed.

Lemma load_data_stops_at_bad_row_witness :
  load_data canonical_library
    (blank (mk_database
              [task_to_row (Task.mk 1 "Write report" "Quarterly" jan10 HIGH
                               "Bob" "Not Started" clock);
               mk_task_row 2 "Call" "Client" "2024-01-12" "URGENT" "Bob"
                 "Not Started" "2024-01-10T09:05:00"]
              [mk_member_row "Bob" "bob@example.org" 3]))
  = (Raise (KeyError "URGENT"),
     mk_manager
       [Task.mk 1 "Write report" "Quarterly" jan10 HIGH "Bob" "Not Started"
          clock]
       [0%nat] []
       (mk_database
          [task_to_row (Task.mk 1 "Write report" "Quarterly" jan10 HIGH
                           "Bob" "Not Started" clock);
           mk_task_row 2 "Call" "Client" "2024-01-12" "URGENT" "Bob"
             "Not Started" "2024-01-10T09:05:00"]
          [mk_member_row "Bob" "bob@example.org" 3])).
Proof.
  refine (load_data_stops_at_bad_row canonical_library
            (blank (mk_database
                      [task_to_row (Task.mk 1 "Write report" "Quarterly"
                                      jan10 HIGH "Bob" "Not Started" clock);
                       mk_task_row 2 "Call" "Client" "2024-01-12" "URGENT"
                         "Bob" "Not Started" "2024-01-10T09:05:00"]
                      [mk_member_row "Bob" "bob@example.org" 3]))
            [task_to_row (Task.mk 1 "Write report" "Quarterly" jan10 HIGH
                            "Bob" "Not Started" clock)]
            [Task.mk 1 "Write report" "Quarterly" jan10 HIGH "Bob"
               "Not Started" clock]
            (mk_task_row 2 "Call" "Client" "2024-01-12" "URGENT" "Bob"
               "Not Started" "2024-01-10T09:05:00")
            [] [mk_member_row "Bob" "bob@example.org" 3]
            (KeyError "URGENT") eq_refl _ eq_refl).
  repeat constructor.
Defined.

(** X8.  After [load_data], whatever the database held, every to-do list
    is empty: the members are rebuilt without their tasks. *)
Theorem to_do_lists_empty_after_load (lib : iso_library) (s : TaskManager)
  (name : string) :
  generate_to_do_list name (after (load_data lib) s)
  = (Ok [], after (load_data lib) s).
Proof.
  rewrite generate_to_do_list_run. unfold after.
  destruct (dict_get name (team_members (load_data lib s).2)) as [m|] eqn:Hm;
    [|reflexivity].
  destruct (dict_get_Forall _ _ _ _
              (load_data_members_without_tasks lib s) Hm) as [k Hk].
  cbn [snd] in Hk. rewrite Hk. reflexivity.
Qed.



(** ** The productivity report *)

Section ReportFacts.

Lemma report_member_expected ts m : report_member ts m = expected_entry ts m.
Proof.
  unfold report_member, expected_entry. cbv zeta. f_equal.
  destruct ts as [|t ts]; [reflexivity|].
  destruct (Z.ltb_spec 0 (Z.of_nat (length (t :: ts)))); [reflexivity|].
  cbn [length] in *. lia.
Qed.

Lemma count_completed_bounds ts :
  0 <= count_completed ts <= Z.of_nat (length ts).
Proof.
  unfold count_completed. split; [lia|].
  apply inj_le. induction ts as [|t ts IH]; cbn [List.filter length]; [lia|].
  destruct (String.eqb _ _); cbn [length]; lia.
Qed.

Lemma dict_get_app_fresh {V : Type} k (v : V) d :
  dict_mem k d = false -> dict_get k (d ++ [(k, v)]) = Some v.
Proof.
  induction d as [|[k' v'] d IH]; cbn [app dict_get].
  - intros _. rewrite String.eqb_refl. reflexivity.
  - rewrite dict_mem_cons. intros [H1 H2]%orb_false_iff. rewrite H1.
    apply IH. exact H2.
Qed.

Lemma dict_get_app_l {V : Type} k (v : V) d d' :
  dict_get k d = Some v -> dict_get k (d ++ d') = Some v.
Proof.
  induction d as [|[k' v'] d IH]; [discriminate|]. cbn [app dict_get].
  destruct (String.eqb k k'); [trivial | exact IH].
Qed.

(** The loop adds one line per member, under the member's name. *)
Lemma report_loop_spec s ms : forall acc,
  NoDup (map TeamMember.name ms) ->
  Forall (fun m => dict_mem (TeamMember.name m) acc = false) ms ->
  Forall (fun m => exists ts, resolve (heap s) (TeamMember.tasks m) = Some ts)
    ms ->
  exists rep,
    report_loop ms acc s = (Ok rep, s)
    /\ (forall k e, dict_get k acc = Some e -> dict_get k rep = Some e)
    /\ Forall (fun m => forall ts,
                 resolve (heap s) (TeamMember.tasks m) = Some ts ->
                 dict_get (TeamMember.name m) rep
                 = Some (expected_entry ts m)) ms
    /\ dict_keys rep = dict_keys acc ++ map TeamMember.name ms.
Proof.
  induction ms as [|m ms IH]; intros acc Hnd Hfresh Hres.
  - exists acc. cbn [report_loop map]. rewrite app_nil_r.
    repeat split; [trivial | constructor].
  - cbn [map] in Hnd. apply NoDup_cons in Hnd as [Hm Hnd].
    apply Forall_cons in Hfresh as [Hf Hfresh].
    apply Forall_cons in Hres as [[ts Hts] Hres].
    cbn [report_loop]. rewrite bind_run. unfold resolve_all. rewrite Hts.
    rewrite report_member_expected, (dict_set_fresh _ _ _ Hf).
    destruct (IH (acc ++ [(TeamMember.name m, expected_entry ts m)]) Hnd)
      as (rep & H1 & H2 & H3 & H4).
    + rewrite Forall_forall in Hfresh |- *. intros m' Hm'.
      rewrite dict_mem_app, (Hfresh m' Hm'), dict_mem_cons. cbn [orb].
      rewrite orb_false_r. apply String.eqb_neq. intros Heq. apply Hm.
      rewrite <- Heq. apply list_elem_of_In, in_map, list_elem_of_In.
      exact Hm'.
    + exact Hres.
    + exists rep. split; [exact H1|]. split; [|split].
      * intros k e Hk. apply H2. apply dict_get_app_l. exact Hk.
      * constructor; [|exact H3]. intros ts' Hts'.
        assert (ts' = ts) by congruence. subst ts'.
        apply H2. apply dict_get_app_fresh. exact Hf.
      * rewrite H4. unfold dict_keys. rewrite map_app, <- app_assoc.
        reflexivity.
Qed.
End ReportFacts.

(** X10.  With distinct member names, [generate_productivity_report]
    returns one line per member, in registration order, without changing
    anything: the size of the member's task list, the number of its
    tasks whose status is exactly "Completed" (between 0 and that size),
    the stored workload, and as rate the integer 0 for an empty task
    list and the quotient completed / total otherwise. *)
Theorem generate_productivity_report_spec (s : TaskManager) :
  names_distinct s ->
  members_closed s ->
  exists rep,
    generate_productivity_report s = (Ok rep, s)
    /\ dict_keys rep = map TeamMember.name (dict_values (team_members s))
    /\ forall k m ts,
         (k, m) ∈ team_members s ->
         resolve (heap s) (TeamMember.tasks m) = Some ts ->
         dict_get (TeamMember.name m) rep
         = Some (mk_entry (count_completed ts) (Z.of_nat (length ts))
                   (match ts with
                    | [] => RateZero
                    | _ :: _ => RateQuotient (count_completed ts)
                                  (Z.of_nat (length ts))
                    end)
                   (TeamMember.workload m))
         /\ 0 <= count_completed ts <= Z.of_nat (length ts).
Proof.
  intros Hnd Hcl. unfold generate_productivity_report.
  rewrite bind_run. cbn [gets].
  destruct (report_loop_spec s (dict_values (team_members s)) [] Hnd)
    as (rep & H1 & _ & H3 & H4).
  - apply Forall_forall. reflexivity.
  - unfold members_closed, dict_values in *. rewrite Forall_map.
    exact Hcl.
  - exists rep. split; [exact H1|]. split; [exact H4|].
    intros k m ts Hkm Hts. split; [|apply count_completed_bounds].
    rewrite Forall_forall in H3. apply (H3 m); [|exact Hts].
    unfold dict_values. apply list_elem_of_In, in_map_iff.
    exists (k, m). split; [reflexivity | apply list_elem_of_In; exact Hkm].
Qed.

Lemma generate_productivity_report_spec_witness :
  exists rep,
    generate_productivity_report team_one_task = (Ok rep, team_one_task)
    /\ dict_get "Alice" rep = Some (mk_entry 0 0 RateZero 0)
    /\ dict_get "Bob" rep = Some (mk_entry 0 1 (RateQuotient 0 1) 3).
Proof.
  destruct (generate_productivity_report_spec team_one_task
              ltac:(vm_compute; repeat constructor;
                    rewrite ?list_elem_of_In; cbn [In];
                    intuition discriminate)
              ltac:(repeat constructor; eexists; reflexivity))
    as (rep & H1 & _ & H3).
  exists rep. split; [exact H1|]. split.
  - apply (H3 "Alice" (TeamMember.mk "Alice" "alice@example.org" [] 0) []);
      [apply list_elem_of_In; left; reflexivity | reflexivity].
  - apply (H3 "Bob" (TeamMember.mk "Bob" "bob@example.org" [0%nat] 3)
             [Task.mk 1 "Write report" "Quarterly" jan10 HIGH "Bob"
                "Not Started" clock]);
      [apply list_elem_of_In; right; left; reflexivity | reflexivity].
Defined.

(** ** Reminders *)

Section ReminderFacts.
Variables (cfg : email_config) (smtp : mail -> option string).

Lemma is_empty_false x : is_empty x = false <-> x <> EmptyString.
Proof. destruct x; cbn; split; congruence. Qed.

Lemma resolve_pick keep h : forall l ts,
  resolve h l = Some ts ->
  resolve h (pick keep l ts) = Some (List.filter keep ts).
Proof.
  induction l as [|r l IH]; intros ts.
  - intros [= <-]. reflexivity.
  - rewrite resolve_cons. destruct (h !! r) as [t|] eqn:Hr; [|discriminate].
    destruct (resolve h l) as [ts0|] eqn:Hl; [|discriminate]. intros [= <-].
    rewrite pick_cons. cbn [List.filter]. destruct (keep t).
    + rewrite resolve_cons, Hr, (IH ts0 eq_refl). reflexivity.
    + apply IH. reflexivity.
Qed.

Lemma send_reminder_email_unconfigured task s :
  sender_email cfg = EmptyString \/ sender_password cfg = EmptyString ->
  send_reminder_email cfg smtp task s
  = (Ok [Printed "Email configuration is not set up. Please use the 'Configure Email' option in the main menu."],
     s).
Proof.
  intros H. unfold send_reminder_email.
  destruct H as [-> | ->]; cbn [is_empty orb];
    [|rewrite orb_true_r]; reflexivity.
Qed.

Lemma send_reminder_email_run task t s :
  has_credentials cfg ->
  heap s !! task = Some t ->
  send_reminder_email cfg smtp task s
  = match dict_get (Task.assigned_to t) (team_members s) with
    | None => (Raise (KeyError (Task.assigned_to t)), s)
    | Some member =>
        (Ok [Tried (reminder (sender_email cfg) member t);
             Printed (match smtp (reminder (sender_email cfg) member t) with
                      | None => "Reminder email sent to " ++ Task.assigned_to t
                      | Some err => "Failed to send email: " ++ err
                      end)], s)
    end.
Proof.
  intros [H1 H2] Ht. unfold send_reminder_email.
  apply is_empty_false in H1, H2. rewrite H1, H2. cbn [orb].
  rewrite bind_run, deref_run, Ht, bind_run. cbn [gets].
  destruct (dict_get _ _) as [member|]; [|reflexivity].
  unfold reminder. destruct (smtp _); reflexivity.
Qed.

Lemma send_each_unconfigured l s :
  sender_email cfg = EmptyString \/ sender_password cfg = EmptyString ->
  send_each cfg smtp l s
  = (repeat (Printed "Email configuration is not set up. Please use the 'Configure Email' option in the main menu.")
       (length l), Ok tt, s).
Proof.
  intros H. induction l as [|r l IH]; [reflexivity|].
  cbn [send_each]. rewrite (send_reminder_email_unconfigured _ _ H), IH.
  reflexivity.
Qed.

Lemma tried_app es es' : tried (es ++ es') = tried es ++ tried es'.
Proof.
  induction es as [|[line | m] es IH]; cbn [app tried]; [reflexivity | exact IH|].
  rewrite IH. reflexivity.
Qed.

Lemma send_each_registered s l : forall sel,
  has_credentials cfg ->
  resolve (heap s) l = Some sel ->
  Forall (fun t => registered (Task.assigned_to t) s) sel ->
  exists es,
    send_each cfg smtp l s = (es, Ok tt, s)
    /\ Forall2 (fun m t =>
                  exists member,
                    dict_get (Task.assigned_to t) (team_members s)
                    = Some member
                    /\ m = reminder (sender_email cfg) member t)
         (tried es) sel.
Proof.
  induction l as [|r l IH]; intros sel Hc.
  - intros [= <-] _. exists []. split; [reflexivity | constructor].
  - rewrite resolve_cons. destruct (heap s !! r) as [t|] eqn:Hr; [|discriminate].
    destruct (resolve (heap s) l) as [sel0|] eqn:Hl; [|discriminate].
    intros [= <-] Hreg. apply Forall_cons in Hreg as [Ht Hreg].
    destruct (IH sel0 Hc eq_refl Hreg) as (es & H1 & H2).
    cbn [send_each]. rewrite (send_reminder_email_run _ _ _ Hc Hr).
    apply dict_get_mem in Ht as [member Hm]. rewrite Hm, H1.
    eexists. split; [reflexivity|].
    cbn [app tried]. constructor; [eauto | exact H2].
Qed.

(** Up to the first task of an unregistered member the reminders go out;
    there the loop ends with [KeyError]. *)
Lemma send_each_unregistered s l : forall pre t post,
  has_credentials cfg ->
  resolve (heap s) l = Some (pre ++ t :: post) ->
  Forall (fun t' => registered (Task.assigned_to t') s) pre ->
  ~ registered (Task.assigned_to t) s ->
  exists es,
    send_each cfg smtp l s = (es, Raise (KeyError (Task.assigned_to t)), s)
    /\ Forall2 (fun m t' =>
                  exists member,
                    dict_get (Task.assigned_to t') (team_members s)
                    = Some member
                    /\ m = reminder (sender_email cfg) member t')
         (tried es) pre.
Proof.
  induction l as [|r l IH]; intros pre t post Hc.
  - destruct pre; discriminate.
  - rewrite resolve_cons. destruct (heap s !! r) as [t0|] eqn:Hr; [|discriminate].
    destruct (resolve (heap s) l) as [sel0|] eqn:Hl; [|discriminate].
    intros Hsel Hpre Hbad. cbn [send_each].
    rewrite (send_reminder_email_run _ _ _ Hc Hr).
    destruct pre as [|p pre]; cbn [app] in Hsel; injection Hsel as -> ->.
    + unfold registered, dict_mem in Hbad.
      destruct (dict_get _ _); [congruence|].
      exists []. split; [reflexivity | constructor].
    + apply Forall_cons in Hpre as [Hp Hpre].
      apply dict_get_mem in Hp as [member Hm]. rewrite Hm.
      destruct (IH pre t post Hc eq_refl Hpre Hbad) as (es & H1 & H2).
      rewrite H1. eexists. split; [reflexivity|].
      cbn [app tried]. constructor; [eauto | exact H2].
Qed.

Lemma send_reminders_run today s ts :
  resolve (heap s) (tasks s) = Some ts ->
  send_reminders cfg smtp today s
  = send_each cfg smtp (pick (due_soon today) (tasks s) ts) s.
Proof.
  intros Hts. unfold send_reminders. rewrite bind_run. cbn [gets].
  rewrite (select_run _ _ _ ts Hts). reflexivity.
Qed.
End ReminderFacts.

(** X11.  Without a sender address or password, [send_reminders] hands
    nothing to the mail server and never raises, whoever the tasks are
    assigned to: it prints the configuration notice once for every task
    that is due (deadline at most two days after today, status not
    "Completed"). *)
Theorem send_reminders_unconfigured (cfg : email_config)
  (smtp : mail -> option string) (today : Date.t) (s : TaskManager)
  (ts : list Task.t) :
  sender_email cfg = EmptyString \/ sender_password cfg = EmptyString ->
  resolve (heap s) (tasks s) = Some ts ->
  exists es,
    send_reminders cfg smtp today s = (es, Ok tt, s)
    /\ tried es = []
    /\ es = repeat (Printed "Email configuration is not set up. Please use the 'Configure Email' option in the main menu.")
              (length (List.filter (due_soon today) ts)).
Proof.
  intros Hcfg Hts. rewrite (send_reminders_run _ _ _ _ _ Hts).
  rewrite (send_each_unconfigured _ _ _ _ Hcfg).
  pose proof (resolve_length _ _ _ (resolve_pick (due_soon today) _ _ _ Hts))
    as Hlen.
  rewrite <- Hlen. eexists. split; [reflexivity|]. split; [|reflexivity].
  clear. induction (length _) as [|n IH]; [reflexivity | exact IH].
Qed.

Lemma send_reminders_unconfigured_witness :
  exists es,
    send_reminders (mk_config "" "") (fun _ => None) jan10 team_with_stray
    = (es, Ok tt, team_with_stray)
    /\ tried es = []
    /\ es = repeat (Printed "Email configuration is not set up. Please use the 'Configure Email' option in the main menu.")
              2.
Proof.
  exact (send_reminders_unconfigured (mk_config "" "") (fun _ => None) jan10
           team_with_stray _ (or_introl eq_refl) eq_refl).
Defined.





(** ** The sort is stable *)

Section StableFacts.
Context {A : Type} (key : A -> Z * Date.t) (P : A -> bool).
Hypothesis same_class :
  forall x y, P x = true -> P y = true -> key_ltb (key x) (key y) = false.

Lemma filter_insert_desc x l :
  List.filter P (insert_desc key x l) = List.filter P (x :: l).
Proof.
  induction l as [|y l IH]; [reflexivity|]. cbn [insert_desc].
  destruct (key_ltb (key x) (key y)) eqn:Hxy; [|reflexivity].
  cbn [List.filter] in *. rewrite IH.
  destruct (P x) eqn:Hx, (P y) eqn:Hy; try reflexivity.
  rewrite (same_class x y Hx Hy) in Hxy. discriminate.
Qed.

Lemma filter_sorted_reverse l :
  List.filter P (sorted_reverse key l) = List.filter P l.
Proof.
  induction l as [|x l IH]; [reflexivity|]. cbn [sorted_reverse].
  rewrite filter_insert_desc. cbn [List.filter]. rewrite IH. reflexivity.
Qed.
End StableFacts.

Section StableToDo.

Lemma date_ltb_irrefl d : Date.ltb d d = false.
Proof. apply date_ltb_false. apply date_leb_iff. lia. Qed.

Lemma zip_fst_snd_pairs (ps : list (nat * Task.t)) :
  zip (map fst ps) (map snd ps) = ps.
Proof.
  induction ps as [|[r t] ps IH]; [reflexivity|].
  cbn [map zip zip_with fst snd] in *. rewrite IH. reflexivity.
Qed.
End StableToDo.

(** X14.  [generate_to_do_list] is stable: the tasks of a member that
    have the same priority and the same deadline come out in the order
    in which the member's task list holds them. *)
Theorem generate_to_do_list_stable (name : string) (s : TaskManager)
  (m : TeamMember.t) (ts : list Task.t) (p : Priority) (d : Date.t) :
  dict_get name (team_members s) = Some m ->
  resolve (heap s) (TeamMember.tasks m) = Some ts ->
  let same := fun t => Priority.eqb (Task.priority t) p
                       && Date.eqb (Task.deadline t) d in
  exists l ts',
    generate_to_do_list name s = (Ok l, s)
    /\ resolve (heap s) l = Some ts'
    /\ pick same l ts' = pick same (TeamMember.tasks m) ts.
Proof.
  intros Hm Hts same. rewrite generate_to_do_list_run, Hm, Hts.
  set (ps := sorted_reverse _ _).
  exists (map fst ps), (map snd ps). split; [reflexivity|]. split.
  - assert (Hperm : Permutation ps (zip (TeamMember.tasks m) ts))
      by apply (sorted_reverse_perm snd).
    apply resolve_pairs. rewrite Hperm. apply resolve_zip. exact Hts.
  - unfold pick. rewrite zip_fst_snd_pairs. subst ps. f_equal.
    apply (filter_sorted_reverse (fun x => sort_key x.2)
             (fun x => same x.2)).
    intros [r1 t1] [r2 t2]. cbn [snd]. subst same. cbv beta.
    intros [H1 H2]%andb_true_iff [H3 H4]%andb_true_iff.
    apply priority_eqb_eq in H1, H3. apply eqb_eq in H2, H4.
    unfold key_ltb, sort_key. cbn [fst snd]. rewrite H1, H2, H3, H4.
    rewrite Z.ltb_irrefl, date_ltb_irrefl, andb_false_r. reflexivity.
Qed.

Lemma generate_to_do_list_stable_witness :
  exists l ts',
    generate_to_do_list "Alice" alice_ties = (Ok l, alice_ties)
    /\ resolve (heap alice_ties) l = Some ts'
    /\ pick (fun t => Priority.eqb (Task.priority t) HIGH
                      && Date.eqb (Task.deadline t) (Date.mk 2024 1 20))
         l ts'
       = [0; 2]%nat.
Proof.
  exact (generate_to_do_list_stable "Alice" alice_ties
           (TeamMember.mk "Alice" "alice@example.org" [0; 1; 2]%nat 7) _
           HIGH (Date.mk 2024 1 20) eq_refl eq_refl).
Defined.

(** The two HIGH tasks of the same day stay in the order of the member's
    list, in front of the LOW task that stood between them. *)
Example generate_to_do_list_ties :
  outcome (generate_to_do_list "Alice") alice_ties = Ok [0; 2; 1]%nat.
Proof. vm_compute. reflexivity. Qed.

(** ** Status updates reach the members *)

Section SharedStatus.

Lemma count_completed_cons t ts :
  count_completed (t :: ts)
  = (if String.eqb (Task.status t) "Completed" then 1 else 0)
    + count_completed ts.
Proof.
  unfold count_completed. cbn [List.filter].
  destruct (String.eqb _ _); cbn [length]; lia.
Qed.

(** Completing the object behind [r] adds one completed task for every
    place where a list holds [r]. *)
Lemma resolve_insert_completed h r t l : forall ts,
  h !! r = Some t ->
  Task.status t <> "Completed"%string ->
  resolve h l = Some ts ->
  exists ts',
    resolve (<[r := Task.set_status t "Completed"]> h) l = Some ts'
    /\ count_completed ts'
       = count_completed ts + Z.of_nat (count_occ Nat.eq_dec l r)
    /\ length ts' = length ts.
Proof.
  intros ts Hr Hst. revert ts. induction l as [|r0 l IH]; intros ts.
  - intros [= <-]. exists []. repeat split.
  - rewrite !resolve_cons. destruct (h !! r0) as [t0|] eqn:Hr0; [|discriminate].
    destruct (resolve h l) as [ts0|]; [|discriminate]. intros [= <-].
    destruct (IH ts0 eq_refl) as (ts1 & H1 & H2 & H3). rewrite H1.
    cbn [count_occ]. destruct (Nat.eq_dec r0 r) as [-> | Hne].
    + rewrite list_lookup_insert_eq by (eapply lookup_lt_Some; exact Hr).
      eexists. split; [reflexivity|].
      assert (t0 = t) by congruence. subst t0.
      rewrite !count_completed_cons, H2. cbn [Task.set_status Task.status length].
      apply String.eqb_neq in Hst. rewrite Hst, String.eqb_refl.
      split; [lia | congruence].
    + rewrite list_lookup_insert_ne by congruence. rewrite Hr0.
      eexists. split; [reflexivity|].
      rewrite !count_completed_cons, H2. cbn [length]. split; [lia | congruence].
Qed.
End SharedStatus.

(** X15.  Task objects are shared: when [update_task_status] sets the
    task with a given id to "Completed", every member's own task list
    shows it.  The number of completed tasks that the productivity report
    counts for a member grows by the number of times the member's list
    holds that task, and the size of the list stays. *)
Theorem update_task_status_reaches_members (task_id : Z) (s : TaskManager)
  (ts : list Task.t) (i : nat) (t : Task.t) (r : ref)
  (k : string) (m : TeamMember.t) (tsm : list Task.t) :
  resolve (heap s) (tasks s) = Some ts ->
  ts !! i = Some t -> Task.id t = task_id ->
  (forall j t', (j < i)%nat -> ts !! j = Some t' -> Task.id t' <> task_id) ->
  tasks s !! i = Some r ->
  Task.status t <> "Completed"%string ->
  (k, m) ∈ team_members s ->
  resolve (heap s) (TeamMember.tasks m) = Some tsm ->
  let s' := after (update_task_status task_id "Completed") s in
  (k, m) ∈ team_members s'
  /\ exists tsm',
       resolve (heap s') (TeamMember.tasks m) = Some tsm'
       /\ count_completed tsm'
          = count_completed tsm
            + Z.of_nat (count_occ Nat.eq_dec (TeamMember.tasks m) r)
       /\ length tsm' = length tsm.
Proof.
  intros Hts Hi Hid Hbefore Hr Hst Hkm Htsm. cbv zeta.
  unfold after, update_task_status. rewrite bind_run. cbn [gets].
  destruct (update_loop_spec task_id "Completed" s (tasks s) ts Hts)
    as [_ H2].
  rewrite (H2 i t r Hi Hid Hbefore Hr).
  match goal with |- context [save_data ?x] =>
    destruct (save_data_same_memory x) as (Hh & _ & Hm) end.
  rewrite Hh, Hm. cbn [with_heap heap team_members].
  split; [exact Hkm|].
  assert (Hrt : heap s !! r = Some t).
  { clear -Hts Hi Hr. revert ts i Hts Hi Hr.
    generalize (tasks s). intros l. induction l as [|r0 l IH];
      intros ts i Hts Hi Hr; [destruct i; discriminate|].
    rewrite resolve_cons in Hts.
    destruct (heap s !! r0) as [t0|] eqn:Hr0; [|discriminate].
    destruct (resolve (heap s) l) as [ts0|]; [|discriminate].
    injection Hts as <-. destruct i as [|i].
    - injection Hi as <-. injection Hr as <-. exact Hr0.
    - apply (IH ts0 i eq_refl Hi Hr). }
  exact (resolve_insert_completed _ _ _ _ _ Hrt Hst Htsm).
Qed.

Lemma update_task_status_reaches_members_witness :
  exists tsm',
    resolve (heap (after (update_task_status 1 "Completed") team_one_task))
      [0%nat] = Some tsm'
    /\ count_completed tsm' = 0 + 1
    /\ length tsm' = 1%nat.
Proof.
  exact (proj2 (update_task_status_reaches_members 1 team_one_task _ O
                  (Task.mk 1 "Write report" "Quarterly" jan10 HIGH "Bob"
                     "Not Started" clock)
                  O "Bob"
                  (TeamMember.mk "Bob" "bob@example.org" [0%nat] 3) _
                  eq_refl eq_refl eq_refl ltac:(intros; lia) eq_refl
                  ltac:(discriminate)
                  ltac:(apply list_elem_of_In; right; left; reflexivity)
                  eq_refl)).
Defined.

(** ** Overdue tasks are reminded too *)

Section OverdueFacts.

Lemma overdue_due_soon today t :
  Date.valid today -> Date.valid (Task.deadline t) ->
  Date.ltb (Task.deadline t) today = true ->
  Task.status t <> "Completed"%string ->
  due_soon today t = true.
Proof.
  intros Hv Hd Hlt Hst. unfold due_soon.
  apply toordinal_lt in Hlt; [|apply valid_in_year; assumption..].
  apply String.eqb_neq in Hst. rewrite Hst. cbn [negb].
  rewrite andb_true_r. apply Z.leb_le. lia.
Qed.

Lemma Forall2_In_r {A B : Type} (R : A -> B -> Prop) l k y :
  Forall2 R l k -> In y k -> exists x, In x l /\ R x y.
Proof.
  induction 1 as [|x y0 l k Hxy Hlk IH]; cbn [In]; [contradiction|].
  intros [<- | Hy]; [eauto|]. destruct (IH Hy) as (x' & H1 & H2). eauto.
Qed.
End OverdueFacts.


